(** * pylgbst.comms.cbleak: the Bleak bridge between the blocking hub API
      and the asynchronous BLE transport.

    The development embeds [BleakConnection2], [BleakDriver] and
    [BleakConnection] of [pylgbst/comms/cbleak.py].  The BLE library (bleak)
    is an external collaborator: its answers are read from a script carried
    by the world, and every call made to it is recorded in a trace.  The two
    threads started by the driver are modelled by a program counter each and
    an interleaving step function, in which the threads of the application,
    the two threads of the driver and the device take turns in any order;
    [queue.Queue.put] and [queue.Queue.get] are atomic FIFO operations, as
    the Python library documents them.  The base class [Connection] is
    imported from [pylgbst.comms]: what its constructor does with the
    arguments that the two subclasses pass to it is part of the
    environment, and so is its method [_is_device_matched]. *)

From Stdlib Require Import ZArith List String Ascii Bool Lia PeanoNat.
From Stdlib Require Import Strings.Byte.
Import ListNotations.

Open Scope string_scope.
Open Scope list_scope.

(** ** Data *)

(** A device returned by [bleak.discover]: [dev.address] and [dev.name]
    ([name] may be [None]). *)
Record Device := mkDevice { address : string; name : option string }.

(** The [data] argument of a write: a [bytearray], or some other sequence of
    byte values ([bytes], a list of ints in [range(256)]), which the write
    methods convert with [bytearray(data)]. *)
Inductive pydata :=
| PyBytearray (b : list byte)
| PySeq (b : list byte).

Definition isinstance_bytearray (d : pydata) : bool :=
  match d with PyBytearray _ => true | PySeq _ => false end.

Definition bytearray (d : pydata) : list byte :=
  match d with PyBytearray b => b | PySeq b => b end.

(** What [client.services.get_descriptor(handle)] returns when it is not
    [None]. *)
Record Descriptor := mkDescriptor { characteristic_uuid : string }.

(** [BleakClient(address, loop)]: the address it was built with, what
    [is_connected()] reports, and its service collection. *)
Record BleakClient := mkClient {
  cl_address : string;
  is_connected : bool;
  services : Z -> option Descriptor
}.

(** Python exceptions that the modelled code can raise or let through. *)
Inductive exn :=
| ConnectionError (msg : string)
| AttributeError (msg : string)
| TypeError (msg : string)
| BleakError (op : string)
| HandlerError.

Inductive result (A : Type) :=
| Ok (a : A)
| Raise (e : exn).
Arguments Ok {A} a.
Arguments Raise {A} e.

Definition is_ok {A} (r : result A) : bool :=
  match r with Ok _ => true | Raise _ => false end.

(** Calls made to the transport (bleak), in the order they are made. *)
Inductive call :=
| Discover (timeout : nat)
| ClientConnect (addr : string)
| StartNotify (uuid : string)
| WriteGattChar (uuid : string) (data : list byte)
| ClientDisconnect (addr : string).

(** Records written to the ['comms-bleak'] logger. *)
Inductive log_record :=
| InfoDiscovering
| DebugDevices (devices : list Device)
| DebugDevice (dev : Device)
| InfoDeviceMatched (dev : Device)
| DebugConnectionStatus (status : bool)
| DebugRequest (handle : Z) (payload : list byte)
| DebugResponse (handle : Z) (payload : list byte)
| DebugPutIntoQueue (data : list byte)
| DebugDisconnecting
| DebugCheckingAlive
| InfoCommunicationsExited
| InfoProcessingExited.

(** What lies outside the file and is fixed for a run: what the device
    and the radio do, and the constructor of the base class [Connection],
    which is imported from [pylgbst.comms].  [connection_init n] is the
    outcome of [Connection.__init__] reached through [super().__init__(..)]
    with [n] positional arguments besides the instance. *)
Record Env := mkEnv {
  connect_fails : string -> bool;     (* [client.connect()] raises *)
  start_notify_fails : bool;          (* [client.start_notify] raises *)
  disconnect_fails : bool;            (* [client.disconnect()] raises *)
  gatt_table : Z -> option Descriptor; (* descriptors of the connected device *)
  connection_init : nat -> result unit (* [Connection.__init__] *)
}.

(** The world outside the objects: the transport's script and trace, the
    logger, and the two module-level queues [resp_queue] and [req_queue]. *)
Record World := mkWorld {
  scans : list (list Device);   (* results of the coming [discover] calls *)
  write_faults : list bool;     (* does the coming [write_gatt_char] raise *)
  calls : list call;            (* transport calls so far, oldest first *)
  log : list log_record;        (* oldest first *)
  resp_queue : list (Z * list byte);
  req_queue : list (Z * pydata)
}.

Definition set_scans (v : list (list Device)) (w : World) : World :=
  mkWorld v (write_faults w) (calls w) (log w) (resp_queue w) (req_queue w).
Definition set_write_faults (v : list bool) (w : World) : World :=
  mkWorld (scans w) v (calls w) (log w) (resp_queue w) (req_queue w).
Definition set_calls (v : list call) (w : World) : World :=
  mkWorld (scans w) (write_faults w) v (log w) (resp_queue w) (req_queue w).
Definition set_log (v : list log_record) (w : World) : World :=
  mkWorld (scans w) (write_faults w) (calls w) v (resp_queue w) (req_queue w).
Definition set_resp_queue (v : list (Z * list byte)) (w : World) : World :=
  mkWorld (scans w) (write_faults w) (calls w) (log w) v (req_queue w).
Definition set_req_queue (v : list (Z * pydata)) (w : World) : World :=
  mkWorld (scans w) (write_faults w) (calls w) (log w) (resp_queue w) v.

(** ** A state and exception monad

    A Python exception leaves the effects made before it in place, so a
    computation returns its result together with the state. *)
Definition M (S A : Type) : Type := S -> result A * S.

Definition ret {S A} (a : A) : M S A := fun s => (Ok a, s).
Definition raise {S A} (e : exn) : M S A := fun s => (Raise e, s).
Definition bind {S A B} (m : M S A) (k : A -> M S B) : M S B :=
  fun s => match m s with
           | (Ok a, s') => k a s'
           | (Raise e, s') => (Raise e, s')
           end.

Declare Scope py_scope.
Delimit Scope py_scope with py.
Notation "x <- m ;; k" := (bind m (fun x => k))
  (at level 61, m at next level, right associativity) : py_scope.
Notation "m ;; k" := (bind m (fun _ => k))
  (at level 61, right associativity) : py_scope.
Open Scope py_scope.

(** Run a computation on the world inside a method of an object [C]. *)
Definition inW {C A} (m : M World A) : M (C * World) A :=
  fun s => let '(r, w) := m (snd s) in (r, (fst s, w)).
Definition getSelf {C} : M (C * World) C := fun s => (Ok (fst s), s).
Definition setSelf {C} (f : C -> C) : M (C * World) unit :=
  fun s => (Ok tt, (f (fst s), snd s)).

(** *** Logger and transport primitives *)

Definition log_write (r : log_record) : M World unit :=
  fun w => (Ok tt, set_log (log w ++ [r]) w).

(** [discover(timeout=t)]: the next scripted scan; an exhausted script is a
    radio that sees nothing. *)
Definition discover (timeout : nat) : M World (list Device) :=
  fun w => (Ok (hd [] (scans w)),
            set_calls (calls w ++ [Discover timeout]) (set_scans (tl (scans w)) w)).

(** [client.write_gatt_char(uuid, data)]. *)
Definition write_gatt_char (uuid : string) (data : list byte) : M World unit :=
  fun w =>
    let w' := set_calls (calls w ++ [WriteGattChar uuid data])
                        (set_write_faults (tl (write_faults w)) w) in
    if hd false (write_faults w)
    then (Raise (BleakError "write_gatt_char"), w')
    else (Ok tt, w').

Definition record_call (c : call) : M World unit :=
  fun w => (Ok tt, set_calls (calls w ++ [c]) w).

(** *** The bleak client *)

Section Client.
Variable env : Env.

(** [BleakClient(address, loop)]: not connected, no services yet. *)
Definition BleakClient_new (addr : string) : BleakClient :=
  mkClient addr false (fun _ => None).

(** [client.connect()]: returns the status [True], or raises. *)
Definition client_connect (cl : BleakClient) : M World (bool * BleakClient) :=
  record_call (ClientConnect (cl_address cl)) ;;
  if connect_fails env (cl_address cl)
  then raise (BleakError "connect")
  else ret (true, mkClient (cl_address cl) true (gatt_table env)).

(** [client.start_notify(uuid, callback)]. *)
Definition client_start_notify (uuid : string) : M World unit :=
  record_call (StartNotify uuid) ;;
  if start_notify_fails env then raise (BleakError "start_notify") else ret tt.

(** [client.disconnect()]. *)
Definition client_disconnect (cl : BleakClient) : M World BleakClient :=
  record_call (ClientDisconnect (cl_address cl)) ;;
  if disconnect_fails env
  then raise (BleakError "disconnect")
  else ret (mkClient (cl_address cl) false (services cl)).
End Client.

(** The characteristic a write goes to: the descriptor's, or the fallback. *)
Definition target_uuid (fallback : string) (desc : option Descriptor) : string :=
  match desc with
  | None => fallback
  | Some d => characteristic_uuid d
  end.

(** ** class BleakConnection2 *)

Module BleakConnection2.

Record t := mk {
  _abort : bool;
  _client : option BleakClient;
  _notify_queue : list (Z * list byte)
}.

(** The fields as [__init__] sets them. *)
Definition blank : t := mk false None [].

(** [__init__]: [super().__init__()] passes nothing besides the instance;
    an exception of the base constructor leaves no object. *)
Definition __init__ (env : Env) : result t :=
  match connection_init env 0 with
  | Ok _ => Ok blank
  | Raise e => Raise e
  end.

Definition set_abort (v : bool) (self : t) : t :=
  mk v (_client self) (_notify_queue self).
Definition set_client (v : option BleakClient) (self : t) : t :=
  mk (_abort self) v (_notify_queue self).

(** [self._client.<attr>]: an [AttributeError] when [_client] is [None]. *)
Definition client_attr (attr : string) : M (t * World) BleakClient :=
  self <- getSelf ;;
  match _client self with
  | None => raise (AttributeError attr)
  | Some cl => ret cl
  end.

Section Methods.
Variable MOVE_HUB_HW_UUID_CHAR : string.
Variable _is_device_matched :
  string -> option string -> option string -> option string -> bool.
Variable env : Env.

(** [for dev in devices: ... break], [None] when the loop runs out. *)
Fixpoint for_dev (hub_mac hub_name : option string) (devices : list Device)
  : M World (option Device) :=
  match devices with
  | [] => ret None
  | dev :: rest =>
      log_write (DebugDevice dev) ;;
      if _is_device_matched (address dev) (name dev) hub_mac hub_name
      then log_write (InfoDeviceMatched dev) ;; ret (Some dev)
      else for_dev hub_mac hub_name rest
  end.

(** [for i in range(0, n)]: one scan of one second per round, [continue]
    when the inner loop found nothing, [break] when it did. *)
Fixpoint for_i (hub_mac hub_name : option string) (n : nat)
  : M World (option Device) :=
  match n with
  | O => ret None
  | S n' =>
      devices <- discover 1 ;;
      log_write (DebugDevices devices) ;;
      found <- for_dev hub_mac hub_name devices ;;
      match found with
      | Some device => ret (Some device)
      | None => for_i hub_mac hub_name n'
      end
  end.

Definition connect (hub_mac hub_name : option string) : M (t * World) unit :=
  inW (log_write InfoDiscovering) ;;
  found <- inW (for_i hub_mac hub_name 30) ;;
  match found with
  | None => raise (ConnectionError "Device not found.")
  | Some device =>
      setSelf (set_client (Some (BleakClient_new (address device)))) ;;
      cl <- client_attr "connect" ;;
      r <- inW (client_connect env cl) ;;
      setSelf (set_client (Some (snd r))) ;;
      inW (log_write (DebugConnectionStatus (fst r))) ;;
      _ <- client_attr "start_notify" ;;
      inW (client_start_notify env MOVE_HUB_HW_UUID_CHAR)
  end.

(** The callback [enqueue] that [connect] subscribes. *)
Definition enqueue (handle : Z) (data : list byte) : M (t * World) unit :=
  inW (log_write (DebugPutIntoQueue data)) ;;
  setSelf (fun self => mk (_abort self) (_client self)
                          (_notify_queue self ++ [(handle, data)])).

Definition is_alive : M (t * World) bool :=
  inW (log_write DebugCheckingAlive) ;;
  cl <- client_attr "is_connected" ;;
  ret (is_connected cl).

Definition disconnect : M (t * World) unit :=
  setSelf (set_abort true) ;;
  alive <- is_alive ;;
  if alive : bool
  then inW (log_write DebugDisconnecting) ;;
       cl <- client_attr "disconnect" ;;
       cl' <- inW (client_disconnect env cl) ;;
       setSelf (set_client (Some cl'))
  else ret tt.

Definition write (handle : Z) (data : pydata) : M (t * World) unit :=
  cl <- client_attr "services" ;;
  let desc := services cl handle in
  let data := if isinstance_bytearray data then data
              else PyBytearray (bytearray data) in
  match desc with
  | None => inW (write_gatt_char MOVE_HUB_HW_UUID_CHAR (bytearray data))
  | Some d => inW (write_gatt_char (characteristic_uuid d) (bytearray data))
  end.
End Methods.

(** *** The thread started by [set_notify_handler] *)

Definition set_notify_queue (v : list (Z * list byte)) (self : t) : t :=
  mk (_abort self) (_client self) v.

(** Where the thread function [_processing] stands. *)
Inductive notify_pc :=
| NWhile                          (* while not self._abort *)
| NGet                            (* handle, data = self._notify_queue.get(block=True) *)
| NHandler (msg : Z * list byte)  (* handler(handle, data) *)
| NReturned
| NRaised (e : exn).

Definition notify_alive (pc : notify_pc) : bool :=
  match pc with
  | NReturned | NRaised _ => false
  | _ => true
  end.

(** The object, the world, the thread of [set_notify_handler] and the calls
    its handler has received, oldest first. *)
Record Bridge := mkBridge {
  conn : t;
  outside : World;
  thread : notify_pc;
  delivered : list (Z * list byte)
}.

(** What can happen to a bridge: the client calls [enqueue], the thread
    takes a step, or the application calls [disconnect]. *)
Inductive event :=
| Arrive (handle : Z) (data : list byte)
| Turn
| Close.

Section Notify.
Variable handler : Z -> list byte -> result unit.
Variable env : Env.

(** One step of [_processing]; the last component is the call the handler
    received in this step, if any. *)
Definition _processing (pc : notify_pc) (s : t * World)
  : notify_pc * (t * World) * list (Z * list byte) :=
  match pc with
  | NWhile =>
      if _abort (fst s)
      then (NReturned, (fst s, snd (log_write InfoProcessingExited (snd s))), [])
      else (NGet, s, [])
  | NGet =>
      match _notify_queue (fst s) with
      | [] => (NGet, s, [])          (* [get(block=True)] waits *)
      | msg :: rest => (NHandler msg, (set_notify_queue rest (fst s), snd s), [])
      end
  | NHandler msg =>
      match handler (fst msg) (snd msg) with
      | Ok _ => (NWhile, s, [msg])
      | Raise e => (NRaised e, s, [msg])
      end
  | NReturned => (NReturned, s, [])
  | NRaised e => (NRaised e, s, [])
  end.

Definition react (ev : event) (b : Bridge) : Bridge :=
  match ev with
  | Arrive handle data =>
      let s := snd (enqueue handle data (conn b, outside b)) in
      mkBridge (fst s) (snd s) (thread b) (delivered b)
  | Turn =>
      let '(pc, s, inv) := _processing (thread b) (conn b, outside b) in
      mkBridge (fst s) (snd s) pc (delivered b ++ inv)
  | Close =>
      let s := snd (disconnect env (conn b, outside b)) in
      mkBridge (fst s) (snd s) (thread b) (delivered b)
  end.

Definition play (evs : list event) (b : Bridge) : Bridge :=
  fold_left (fun b ev => react ev b) evs b.
End Notify.


(** The notification that the thread holds between [get] and the call. *)
Definition held (pc : notify_pc) : list (Z * list byte) :=
  match pc with NHandler msg => [msg] | _ => [] end.

End BleakConnection2.

(** ** class BleakConnection *)

Module BleakConnection.

Record t := mk {
  _device : option Device;
  _client : option BleakClient
}.

(** The fields as [__init__] sets them. *)
Definition blank : t := mk None None.

(** [__init__]: [super().__init__(self)] passes the instance once more, as
    a positional argument; an exception of the base constructor leaves no
    object. *)
Definition __init__ (env : Env) : result t :=
  match connection_init env 1 with
  | Ok _ => Ok blank
  | Raise e => Raise e
  end.

Definition set_device (v : option Device) (self : t) : t := mk v (_client self).
Definition set_client (v : option BleakClient) (self : t) : t := mk (_device self) v.

Definition client_attr (attr : string) : M (t * World) BleakClient :=
  self <- getSelf ;;
  match _client self with
  | None => raise (AttributeError attr)
  | Some cl => ret cl
  end.

Section Methods.
Variable MOVE_HUB_HW_UUID_CHAR : string.
Variable _is_device_matched :
  string -> option string -> option string -> option string -> bool.
Variable env : Env.

(** [for dev in devices: ... self._device = dev; break]; the result tells
    whether the loop left through [break]. *)
Fixpoint for_dev (hub_mac hub_name : option string) (devices : list Device)
  : M (t * World) bool :=
  match devices with
  | [] => ret false
  | dev :: rest =>
      inW (log_write (DebugDevice dev)) ;;
      if _is_device_matched (address dev) (name dev) hub_mac hub_name
      then inW (log_write (InfoDeviceMatched dev)) ;;
           setSelf (set_device (Some dev)) ;;
           ret true
      else for_dev hub_mac hub_name rest
  end.

Definition connect (hub_mac hub_name : option string) : M (t * World) unit :=
  inW (log_write InfoDiscovering) ;;
  devices <- inW (discover 10) ;;
  inW (log_write (DebugDevices devices)) ;;
  broke <- for_dev hub_mac hub_name devices ;;
  if broke : bool
  then
    self <- getSelf ;;
    match _device self with
    | None => raise (AttributeError "address")
    | Some dev =>
        setSelf (set_client (Some (BleakClient_new (address dev)))) ;;
        cl <- client_attr "connect" ;;
        r <- inW (client_connect env cl) ;;
        setSelf (set_client (Some (snd r))) ;;
        inW (log_write (DebugConnectionStatus (fst r)))
    end
  else raise (ConnectionError "Device not found.").

Definition write (handle : Z) (data : pydata) : M (t * World) unit :=
  inW (log_write (DebugRequest handle (bytearray data))) ;;
  cl <- client_attr "services" ;;
  let desc := services cl handle in
  let data := if isinstance_bytearray data then data
              else PyBytearray (bytearray data) in
  match desc with
  | None => inW (write_gatt_char MOVE_HUB_HW_UUID_CHAR (bytearray data))
  | Some d => inW (write_gatt_char (characteristic_uuid d) (bytearray data))
  end.

Definition write_char (characteristic_uuid : string) (data : list byte)
  : M (t * World) unit :=
  _ <- client_attr "write_gatt_char" ;;
  inW (write_gatt_char characteristic_uuid data).

(** [set_notify_handler(handler)]: subscribes the wrapper [c] of
    [handler]; [c] itself is [notification_callback] below. *)
Definition set_notify_handler : M (t * World) unit :=
  _ <- client_attr "start_notify" ;;
  inW (client_start_notify env MOVE_HUB_HW_UUID_CHAR).
End Methods.

End BleakConnection.

(** ** class BleakDriver *)

Module BleakDriver.

(** The callback given to [set_notify_handler]: it returns or raises. *)
Definition Handler : Type := Z -> list byte -> result unit.

Record t := mk {
  hub_mac : option string;
  hub_name : option string;
  _handler : option Handler;
  _abort : bool;
  _connection_thread : option nat;   (* index in the thread table *)
  _processing_thread : option nat
}.

(** [__init__(hub_mac, hub_name)] *)
Definition __init__ (hub_mac hub_name : option string) : t :=
  mk hub_mac hub_name None false None None.

(** Where the coroutine [_bleak_thread] stands; [bleak] is its local
    [BleakConnection] and [data] the item it took from [req_queue]. *)
Inductive conn_pc :=
| CConnect                                  (* bleak = BleakConnection(); await bleak.connect(..) *)
| CSetNotify (bleak : BleakConnection.t)    (* await bleak.set_notify_handler(self._safe_handler) *)
| CKeepalive (bleak : BleakConnection.t)    (* await bleak.write_char(MOVE_HUB_HW_UUID_CHAR, ..) *)
| CWhile (bleak : BleakConnection.t)        (* while not self._abort *)
| CSleep (bleak : BleakConnection.t)        (* await asyncio.sleep(0.1) *)
| CQsize (bleak : BleakConnection.t)        (* if req_queue.qsize() != 0 *)
| CGet (bleak : BleakConnection.t)          (* data = req_queue.get() *)
| CWrite (bleak : BleakConnection.t) (data : Z * pydata)
                                            (* await bleak.write(data[0], data[1]) *)
| CReturned
| CRaised (e : exn).

(** Where the thread function [_processing] stands. *)
Inductive proc_pc :=
| PWhile                                    (* while not self._abort *)
| PQsize                                    (* if resp_queue.qsize() != 0 *)
| PGet                                      (* msg = resp_queue.get() *)
| PHandler (msg : Z * list byte)            (* self._handler(msg[0], msg[1]) *)
| PSleep                                    (* time.sleep(0.01) *)
| PReturned
| PRaised (e : exn).

Inductive Thread :=
| ConnectionThread (pc : conn_pc)
| ProcessingThread (pc : proc_pc).

(** [Thread.is_alive()]: started and its function not yet left. *)
Definition thread_is_alive (th : Thread) : bool :=
  match th with
  | ConnectionThread CReturned | ConnectionThread (CRaised _) => false
  | ProcessingThread PReturned | ProcessingThread (PRaised _) => false
  | _ => true
  end.

(** The driver object, every thread started so far, the world, and the
    calls the handler has received, oldest first. *)
Record System := mkSystem {
  self : t;
  threads : list Thread;
  world : World;
  handled : list (Z * list byte)
}.

Definition set_self (v : t) (s : System) : System :=
  mkSystem v (threads s) (world s) (handled s).
Definition set_threads (v : list Thread) (s : System) : System :=
  mkSystem (self s) v (world s) (handled s).
Definition set_world (v : World) (s : System) : System :=
  mkSystem (self s) (threads s) v (handled s).
Definition set_handled (v : list (Z * list byte)) (s : System) : System :=
  mkSystem (self s) (threads s) (world s) v.

Definition tid_is_alive (s : System) (tid : nat) : bool :=
  match nth_error (threads s) tid with
  | Some th => thread_is_alive th
  | None => false
  end.

(** *** Methods called by the API *)

Definition set_notify_handler (handler : Handler) (s : System) : System :=
  let d := self s in
  set_self (mk (hub_mac d) (hub_name d) (Some handler) (_abort d)
               (_connection_thread d) (_processing_thread d)) s.

(** Two new threads are created and started, and the fields are bound to
    them. *)
Definition enable_notifications (s : System) : System :=
  let d := self s in
  let ct := List.length (threads s) in
  let pt := S ct in
  set_self (mk (hub_mac d) (hub_name d) (_handler d) (_abort d) (Some ct) (Some pt))
    (set_threads (threads s ++ [ConnectionThread CConnect; ProcessingThread PWhile]) s).

Definition not_functioning : exn :=
  ConnectionError "Something went wrong, communication threads not functioning.".

(** [write(handle, data)]: [not a.is_alive() or not b.is_alive()] looks at
    [_processing_thread] only when the connection thread is alive. *)
Definition write (handle : Z) (data : pydata) (s : System) : result unit * System :=
  match _connection_thread (self s) with
  | None => (Raise (AttributeError "is_alive"), s)
  | Some ct =>
      if negb (tid_is_alive s ct) then (Raise not_functioning, s)
      else
        match _processing_thread (self s) with
        | None => (Raise (AttributeError "is_alive"), s)
        | Some pt =>
            if negb (tid_is_alive s pt) then (Raise not_functioning, s)
            else (Ok tt,
                  set_world (set_req_queue (req_queue (world s) ++ [(handle, data)])
                                           (world s)) s)
        end
  end.

Definition disconnect (s : System) : System :=
  let d := self s in
  set_self (mk (hub_mac d) (hub_name d) (_handler d) true
               (_connection_thread d) (_processing_thread d)) s.

Definition is_alive (s : System) : bool :=
  match _connection_thread (self s), _processing_thread (self s) with
  | Some ct, Some pt => tid_is_alive s ct && tid_is_alive s pt
  | _, _ => false
  end.

(** [_safe_handler(handler, data)]: [resp_queue.put((handler, data))]. *)
Definition _safe_handler (handle : Z) (data : list byte) : M World unit :=
  fun w => (Ok tt, set_resp_queue (resp_queue w ++ [(handle, data)]) w).

(** The wrapper [c] that [BleakConnection.set_notify_handler] subscribes,
    with [handler] bound to [_safe_handler]. *)
Definition notification_callback (handle : Z) (data : list byte) : M World unit :=
  log_write (DebugResponse handle data) ;;
  _safe_handler handle data.

Definition keepalive : list byte := [x05; x00; x01; x01; x05].

Section Threads.
Variable MOVE_HUB_HW_UUID_CHAR : string.
Variable _is_device_matched :
  string -> option string -> option string -> option string -> bool.
Variable env : Env.

(** Leave a call of a [BleakConnection] method made by the coroutine:
    go on at [next], or end the thread with the exception. *)
Definition after_call {A} (r : result A * (BleakConnection.t * World))
    (next : BleakConnection.t -> conn_pc) : conn_pc * World :=
  match r with
  | (Ok _, (bleak, w)) => (next bleak, w)
  | (Raise e, (_, w)) => (CRaised e, w)
  end.

(** One step of [_bleak_thread]. *)
Definition _bleak_thread (d : t) (pc : conn_pc) (w : World) : conn_pc * World :=
  match pc with
  | CConnect =>
      match BleakConnection.__init__ env with
      | Raise e => (CRaised e, w)
      | Ok bleak =>
          after_call
            (BleakConnection.connect _is_device_matched env (hub_mac d) (hub_name d)
               (bleak, w))
            CSetNotify
      end
  | CSetNotify bleak =>
      after_call
        (BleakConnection.set_notify_handler MOVE_HUB_HW_UUID_CHAR env (bleak, w))
        CKeepalive
  | CKeepalive bleak =>
      after_call
        (BleakConnection.write_char MOVE_HUB_HW_UUID_CHAR keepalive (bleak, w))
        CWhile
  | CWhile bleak =>
      if _abort d
      then (CReturned, snd (log_write InfoCommunicationsExited w))
      else (CSleep bleak, w)
  | CSleep bleak => (CQsize bleak, w)
  | CQsize bleak =>
      if negb (List.length (req_queue w) =? 0)%nat then (CGet bleak, w)
      else (CWhile bleak, w)
  | CGet bleak =>
      match req_queue w with
      | [] => (CGet bleak, w)      (* [get] blocks on an empty queue *)
      | data :: rest => (CWrite bleak data, set_req_queue rest w)
      end
  | CWrite bleak data =>
      after_call
        (BleakConnection.write MOVE_HUB_HW_UUID_CHAR (fst data) (snd data) (bleak, w))
        CWhile
  | CReturned => (CReturned, w)
  | CRaised e => (CRaised e, w)
  end.

(** One step of [_processing]; the third component is the call the
    handler received in this step, if any. *)
Definition _processing (d : t) (pc : proc_pc) (w : World)
  : proc_pc * World * list (Z * list byte) :=
  match pc with
  | PWhile =>
      if _abort d
      then (PReturned, snd (log_write InfoProcessingExited w), [])
      else (PQsize, w, [])
  | PQsize =>
      if negb (List.length (resp_queue w) =? 0)%nat then (PGet, w, [])
      else (PSleep, w, [])
  | PGet =>
      match resp_queue w with
      | [] => (PGet, w, [])        (* [get] blocks on an empty queue *)
      | msg :: rest => (PHandler msg, set_resp_queue rest w, [])
      end
  | PHandler msg =>
      match _handler d with
      | None => (PRaised (TypeError "'NoneType' object is not callable"), w, [])
      | Some handler =>
          match handler (fst msg) (snd msg) with
          | Ok _ => (PSleep, w, [msg])
          | Raise e => (PRaised e, w, [msg])
          end
      end
  | PSleep => (PWhile, w, [])
  | PReturned => (PReturned, w, [])
  | PRaised e => (PRaised e, w, [])
  end.

(** The subscription callback runs on the coroutine's event loop, while
    the coroutine is suspended in an [await] after the subscription. *)
Definition awaiting (th : Thread) : bool :=
  match th with
  | ConnectionThread (CKeepalive _) => true
  | ConnectionThread (CSleep _) => true
  | ConnectionThread (CWrite _ _) => true
  | _ => false
  end.

Definition can_notify (s : System) (tid : nat) : bool :=
  match nth_error (threads s) tid with
  | Some th => awaiting th
  | None => false
  end.

Fixpoint set_nth {A} (n : nat) (x : A) (l : list A) : list A :=
  match l, n with
  | [], _ => []
  | _ :: l', O => x :: l'
  | y :: l', S n' => y :: set_nth n' x l'
  end.

(** What can happen next: a call of the API by some thread of the
    application, a step of a started thread, or a notification from the
    device to the client of thread [tid]. *)
Inductive action :=
| SetNotifyHandler (handler : Handler)
| EnableNotifications
| Write (handle : Z) (data : pydata)
| Disconnect
| Run (tid : nat)
| Notification (tid : nat) (handle : Z) (data : list byte).

Definition step (a : action) (s : System) : System :=
  match a with
  | SetNotifyHandler handler => set_notify_handler handler s
  | EnableNotifications => enable_notifications s
  | Write handle data => snd (write handle data s)
  | Disconnect => disconnect s
  | Run tid =>
      match nth_error (threads s) tid with
      | None => s
      | Some (ConnectionThread pc) =>
          let '(pc', w') := _bleak_thread (self s) pc (world s) in
          set_world w' (set_threads (set_nth tid (ConnectionThread pc') (threads s)) s)
      | Some (ProcessingThread pc) =>
          let '(pc', w', inv) := _processing (self s) pc (world s) in
          set_handled (handled s ++ inv)
            (set_world w' (set_threads (set_nth tid (ProcessingThread pc') (threads s)) s))
      end
  | Notification tid handle data =>
      if can_notify s tid
      then set_world (snd (notification_callback handle data (world s))) s
      else s
  end.

Definition run (tr : list action) (s : System) : System :=
  fold_left (fun s a => step a s) tr s.

(** The writes that [write] accepted along a run, in the order of their
    [req_queue.put]. *)
Fixpoint enqueued (tr : list action) (s : System) : list (Z * pydata) :=
  match tr with
  | [] => []
  | a :: tr' =>
      match a with
      | Write handle data =>
          if is_ok (fst (write handle data s)) then [(handle, data)] else []
      | _ => []
      end ++ enqueued tr' (step a s)
  end.

(** The notifications that reached the subscription callback along a
    run, in the order of their arrival. *)
Fixpoint received (tr : list action) (s : System) : list (Z * list byte) :=
  match tr with
  | [] => []
  | a :: tr' =>
      match a with
      | Notification tid handle data =>
          if can_notify s tid then [(handle, data)] else []
      | _ => []
      end ++ received tr' (step a s)
  end.

Definition count_enable (tr : list action) : nat :=
  List.length (filter (fun a => match a with EnableNotifications => true | _ => false end) tr).
End Threads.

(** The module has just been imported and a driver built: no thread, and
    nothing said to the transport, logged or queued. *)
Definition fresh_world (scans : list (list Device)) (faults : list bool) : World :=
  mkWorld scans faults [] [] [] [].

Definition fresh (hub_mac hub_name : option string)
    (scans : list (list Device)) (faults : list bool) : System :=
  mkSystem (__init__ hub_mac hub_name) [] (fresh_world scans faults) [].

End BleakDriver.

(** ** What lies outside the file *)

Definition lower_ascii (c : ascii) : ascii :=
  let n := nat_of_ascii c in
  if ((65 <=? n) && (n <=? 90))%nat then ascii_of_nat (n + 32) else c.

Fixpoint lower (s : string) : string :=
  match s with
  | EmptyString => EmptyString
  | String c s' => String (lower_ascii c) (lower s')
  end.

Fixpoint is_substring (p s : string) : bool :=
  String.prefix p s ||
  match s with
  | EmptyString => false
  | String _ s' => is_substring p s'
  end.

(** Modelled from the spec: [Connection._is_device_matched], a method of the
    base class in [pylgbst/comms/__init__.py], which is not part of the
    sources at hand.  With a MAC the addresses are compared without regard to
    case and the name is ignored; otherwise with a name it has to occur in
    the device's name, and a missing or empty device name never matches;
    with neither, every device matches. *)
Definition matches (address : string) (name : option string)
    (hub_mac hub_name : option string) : bool :=
  match hub_mac with
  | Some mac => String.eqb (lower address) (lower mac)
  | None =>
      match hub_name with
      | Some wanted =>
          match name with
          | None => false
          | Some EmptyString => false
          | Some dev_name => is_substring wanted dev_name
          end
      | None => true
      end
  end.

(** Modelled from the spec: [MOVE_HUB_HW_UUID_CHAR], the one hardcoded
    default characteristic, imported from [pylgbst.comms]; the general
    results below hold for any value of it. *)
Definition LEGO_CHAR : string := "00001624-1212-efde-1623-785feabcd123".

(** ** Observations used in the statements *)

(** The devices that a run of [connect] looked at, read off the log
    ([log.debug(dev)] opens every round of the inner loop). *)
Fixpoint examined (l : list log_record) : list Device :=
  match l with
  | [] => []
  | DebugDevice dev :: l' => dev :: examined l'
  | _ :: l' => examined l'
  end.

(** No device of a scan is matched. *)
Definition no_match (m : string -> option string -> option string -> option string -> bool)
    (hub_mac hub_name : option string) (devices : list Device) : Prop :=
  Forall (fun dev => m (address dev) (name dev) hub_mac hub_name = false) devices.

(** The transport call that [BleakConnection.write] makes for a queued
    write, on a client whose services are [table]. *)
Definition write_call (fallback : string) (table : Z -> option Descriptor)
    (item : Z * pydata) : call :=
  WriteGattChar (target_uuid fallback (table (fst item))) (bytearray (snd item)).

(** The transport calls of [BleakConnection2.connect] after its loop. *)
Definition connect_calls (env : Env) (uuid : string) (dev : Device) : list call :=
  ClientConnect (address dev) ::
  (if connect_fails env (address dev) then [] else [StartNotify uuid]).

(** The calls that bring the transport unit to its loop. *)
Definition setup_calls (uuid addr : string) : list call :=
  [Discover 10; ClientConnect addr; StartNotify uuid].

Definition keepalive_call (uuid : string) : call :=
  WriteGattChar uuid BleakDriver.keepalive.

(** The write that a connection thread has taken from [req_queue] and not
    yet handed to the transport, and the notification that a processing
    thread has taken from [resp_queue] and not yet handed to the handler. *)
Definition write_in_flight (th : option BleakDriver.Thread) : list (Z * pydata) :=
  match th with
  | Some (BleakDriver.ConnectionThread (BleakDriver.CWrite _ data)) => [data]
  | _ => []
  end.

Definition msg_in_flight (th : option BleakDriver.Thread) : list (Z * list byte) :=
  match th with
  | Some (BleakDriver.ProcessingThread (BleakDriver.PHandler msg)) => [msg]
  | _ => []
  end.

Definition count_threads (f : BleakDriver.Thread -> bool) (s : BleakDriver.System) : nat :=
  List.length (filter f (BleakDriver.threads s)).

Definition is_connection_thread (th : BleakDriver.Thread) : bool :=
  match th with BleakDriver.ConnectionThread _ => true | _ => false end.

Definition is_processing_thread (th : BleakDriver.Thread) : bool :=
  match th with BleakDriver.ProcessingThread _ => true | _ => false end.

(** *** Invariants of a driver whose units were started once *)

(** The client of the coroutine's [BleakConnection] once [connect] has
    returned: it carries the descriptors of the device. *)
Definition client_ready (env : Env) (bleak : BleakConnection.t) : Prop :=
  exists cl, BleakConnection._client bleak = Some cl /\ services cl = gatt_table env.

(** The transport has seen the keepalive and then the writes [sent]. *)
Definition in_loop_calls (uuid : string) (env : Env) (sent : list (Z * pydata))
    (cs : list call) : Prop :=
  exists addr,
    cs = setup_calls uuid addr ++
         keepalive_call uuid :: map (write_call uuid (gatt_table env)) sent.

(** The transport has seen no write yet. *)
Definition before_loop_calls (uuid : string) (cs : list call) : Prop :=
  exists addr k, cs = firstn k (setup_calls uuid addr).

(** How the transport's trace and [req_queue] relate to the writes [enq]
    accepted so far, at each point of [_bleak_thread]. *)
Definition write_inv (uuid : string) (env : Env) (enq : list (Z * pydata))
    (pc : BleakDriver.conn_pc) (w : World) : Prop :=
  match pc with
  | BleakDriver.CConnect => calls w = [] /\ enq = req_queue w
  | BleakDriver.CSetNotify bleak =>
      client_ready env bleak /\
      (exists addr, calls w = [Discover 10; ClientConnect addr]) /\
      enq = req_queue w
  | BleakDriver.CKeepalive bleak =>
      client_ready env bleak /\
      (exists addr, calls w = setup_calls uuid addr) /\
      enq = req_queue w
  | BleakDriver.CWhile bleak | BleakDriver.CSleep bleak
  | BleakDriver.CQsize bleak | BleakDriver.CGet bleak =>
      client_ready env bleak /\
      exists sent, in_loop_calls uuid env sent (calls w) /\ enq = sent ++ req_queue w
  | BleakDriver.CWrite bleak data =>
      client_ready env bleak /\
      exists sent,
        in_loop_calls uuid env sent (calls w) /\ enq = sent ++ data :: req_queue w
  | BleakDriver.CReturned | BleakDriver.CRaised _ =>
      before_loop_calls uuid (calls w) \/
      exists sent rest, in_loop_calls uuid env sent (calls w) /\ enq = sent ++ rest
  end.

(** How the handler's calls and [resp_queue] relate to the notifications
    [rcv] received so far, at each point of [_processing]. *)
Definition notify_inv (rcv : list (Z * list byte)) (pc : BleakDriver.proc_pc)
    (w : World) (hs : list (Z * list byte)) : Prop :=
  match pc with
  | BleakDriver.PWhile | BleakDriver.PQsize | BleakDriver.PGet | BleakDriver.PSleep =>
      rcv = hs ++ resp_queue w
  | BleakDriver.PHandler msg => rcv = hs ++ msg :: resp_queue w
  | BleakDriver.PReturned | BleakDriver.PRaised _ => exists rest, rcv = hs ++ rest
  end.

Definition sys_inv (uuid : string) (env : Env)
    (enq : list (Z * pydata)) (rcv : list (Z * list byte))
    (s : BleakDriver.System) : Prop :=
  (BleakDriver.threads s = [] /\
   BleakDriver._connection_thread (BleakDriver.self s) = None /\
   calls (BleakDriver.world s) = [] /\
   req_queue (BleakDriver.world s) = [] /\ enq = [] /\
   resp_queue (BleakDriver.world s) = [] /\ BleakDriver.handled s = [] /\ rcv = []) \/
  (exists cpc ppc,
     BleakDriver.threads s =
       [BleakDriver.ConnectionThread cpc; BleakDriver.ProcessingThread ppc] /\
     BleakDriver._connection_thread (BleakDriver.self s) = Some 0%nat /\
     BleakDriver._processing_thread (BleakDriver.self s) = Some 1%nat /\
     write_inv uuid env enq cpc (BleakDriver.world s) /\
     notify_inv rcv ppc (BleakDriver.world s) (BleakDriver.handled s)).

(** *** The scenarios of the specification *)

Definition other_device : Device := mkDevice "11:22:33:44:55:66" None.
Definition hub_device : Device := mkDevice "AA:BB:CC:DD:EE:FF" None.
Definition hub_target : option string := Some "AA:BB:CC:DD:EE:FF".

(** A base class whose constructor takes whatever it is given. *)
Definition lenient_base (n : nat) : result unit := Ok tt.

(** A base class that defines no constructor of its own: the call reaches
    [object.__init__], which takes nothing besides the instance. *)
Definition no_extra_argument : exn :=
  TypeError "object.__init__() takes exactly one argument (the instance to initialize)".

Definition plain_base (n : nat) : result unit :=
  match n with
  | O => Ok tt
  | S _ => Raise no_extra_argument
  end.

(** A radio on which every call succeeds and a device without descriptors,
    under a base class that lets [BleakConnection()] return. *)
Definition quiet_env : Env :=
  mkEnv (fun _ => false) false false (fun _ => None) lenient_base.

(** The same radio and device under a base class without a constructor of
    its own. *)
Definition plain_env : Env :=
  mkEnv (fun _ => false) false false (fun _ => None) plain_base.

(** The quiet radio, except that [client.disconnect()] raises. *)
Definition stuck_env : Env :=
  mkEnv (fun _ => false) false true (fun _ => None) lenient_base.

(** Scan 1 sees another device, scan 2 sees the hub. *)
Definition two_scans : World :=
  BleakDriver.fresh_world [[other_device]; [hub_device]] [].

(** The hub is seen by the first scan. *)
Definition hub_in_sight : list (list Device) := [[hub_device]].

(** A client connected to the hub, and the two connection objects that
    hold it. *)
Definition hub_client : BleakClient :=
  mkClient "AA:BB:CC:DD:EE:FF" true (fun _ => None).
Definition hub_conn : BleakConnection.t :=
  BleakConnection.mk (Some hub_device) (Some hub_client).
Definition hub_conn2 : BleakConnection2.t :=
  BleakConnection2.mk false (Some hub_client) [].

(** A handler that returns. *)
Definition ok_handler : BleakDriver.Handler := fun _ _ => Ok tt.

(** The driver of the scenarios, on the quiet radio. *)
Definition lego_step :=
  BleakDriver.step LEGO_CHAR matches quiet_env.
Definition lego_run :=
  BleakDriver.run LEGO_CHAR matches quiet_env.

(** The same driver under the base class without a constructor. *)
Definition plain_step :=
  BleakDriver.step LEGO_CHAR matches plain_env.
Definition plain_run :=
  BleakDriver.run LEGO_CHAR matches plain_env.

(** The application registers a handler and starts the units; the
    connection thread connects, subscribes and sends the keepalive. *)
Definition start_up : list BleakDriver.action :=
  [BleakDriver.SetNotifyHandler ok_handler; BleakDriver.EnableNotifications;
   BleakDriver.Run 0; BleakDriver.Run 0; BleakDriver.Run 0].

(** Two writes are queued and the connection thread goes once round its
    loop, up to the point where it hands the first to the transport. *)
Definition two_writes : list BleakDriver.action :=
  start_up ++
  [BleakDriver.Write 14 (PySeq [x01]); BleakDriver.Write 14 (PySeq [x02]);
   BleakDriver.Run 0; BleakDriver.Run 0; BleakDriver.Run 0; BleakDriver.Run 0].

(** The transport write is made, and both threads go on for a while. *)
Definition two_writes_on : list BleakDriver.action :=
  two_writes ++
  [BleakDriver.Run 0; BleakDriver.Run 0; BleakDriver.Run 1; BleakDriver.Run 0;
   BleakDriver.Run 1; BleakDriver.Run 0; BleakDriver.Run 0; BleakDriver.Run 0].

(** Two notifications arrive during the first sleep of the loop and the
    processing thread hands over the first. *)
Definition two_notifications : list BleakDriver.action :=
  start_up ++
  [BleakDriver.Run 0;
   BleakDriver.Notification 0 14 [x01]; BleakDriver.Notification 0 14 [x02];
   BleakDriver.Run 1; BleakDriver.Run 1; BleakDriver.Run 1; BleakDriver.Run 1].

(** The application asks for the shutdown and both threads see the flag. *)
Definition shutdown : list BleakDriver.action :=
  start_up ++
  [BleakDriver.Disconnect; BleakDriver.Run 0; BleakDriver.Run 1].

Definition alive_connection_thread (th : BleakDriver.Thread) : bool :=
  is_connection_thread th && BleakDriver.thread_is_alive th.

Definition alive_processing_thread (th : BleakDriver.Thread) : bool :=
  is_processing_thread th && BleakDriver.thread_is_alive th.

(** A call that ended in an [AttributeError] and left the transport's
    trace as it was in [w]. *)
Definition attribute_error_only {A S} (w : World) (r : result A * (S * World)) : Prop :=
  (exists attr, fst r = Raise (AttributeError attr)) /\ calls (snd (snd r)) = calls w.

(** *** Observations on runs of the driver *)

(** The steps that thread [tid] is given in a run. *)
Definition count_run (tid : nat) (tr : list BleakDriver.action) : nat :=
  List.length (filter (fun a => match a with
                                | BleakDriver.Run t => Nat.eqb t tid
                                | _ => false
                                end) tr).

(** Is the action a step of a connection thread? *)
Definition connection_step (s : BleakDriver.System) (a : BleakDriver.action) : bool :=
  match a with
  | BleakDriver.Run tid =>
      match nth_error (BleakDriver.threads s) tid with
      | Some (BleakDriver.ConnectionThread _) => true
      | _ => false
      end
  | _ => false
  end.

(** How many of its own steps [_bleak_thread] is from its end, at most,
    once the shutdown flag is set. *)
Definition conn_rank (pc : BleakDriver.conn_pc) : nat :=
  match pc with
  | BleakDriver.CReturned | BleakDriver.CRaised _ => 0
  | BleakDriver.CWhile _ => 1
  | BleakDriver.CWrite _ _ | BleakDriver.CKeepalive _ => 2
  | BleakDriver.CGet _ | BleakDriver.CSetNotify _ => 3
  | BleakDriver.CQsize _ | BleakDriver.CConnect => 4
  | BleakDriver.CSleep _ => 5
  end.

(** The same for [_processing]. *)
Definition proc_rank (pc : BleakDriver.proc_pc) : nat :=
  match pc with
  | BleakDriver.PReturned | BleakDriver.PRaised _ => 0
  | BleakDriver.PWhile => 1
  | BleakDriver.PSleep => 2
  | BleakDriver.PHandler _ => 3
  | BleakDriver.PGet => 4
  | BleakDriver.PQsize => 5
  end.

(** A driver with at most one pair of units, neither of which waits in a
    [get] on an empty queue. *)
Definition units_once (s : BleakDriver.System) : Prop :=
  (BleakDriver.threads s = [] /\
   BleakDriver._connection_thread (BleakDriver.self s) = None) \/
  (exists cpc ppc,
     BleakDriver.threads s =
       [BleakDriver.ConnectionThread cpc; BleakDriver.ProcessingThread ppc] /\
     BleakDriver._connection_thread (BleakDriver.self s) = Some 0%nat /\
     BleakDriver._processing_thread (BleakDriver.self s) = Some 1%nat /\
     (forall bleak, cpc = BleakDriver.CGet bleak ->
                    req_queue (BleakDriver.world s) <> []) /\
     (ppc = BleakDriver.PGet -> resp_queue (BleakDriver.world s) <> [])).

(** The ranks of the two units of such a driver. *)
Definition unit_ranks (s : BleakDriver.System) : nat * nat :=
  match BleakDriver.threads s with
  | [BleakDriver.ConnectionThread cpc; BleakDriver.ProcessingThread ppc] =>
      (conn_rank cpc, proc_rank ppc)
  | _ => (0%nat, 0%nat)
  end.

(** The [BleakConnection] of a coroutine that is in its loop. *)
Definition loop_connection (pc : BleakDriver.conn_pc) : option BleakConnection.t :=
  match pc with
  | BleakDriver.CWhile bleak | BleakDriver.CSleep bleak | BleakDriver.CQsize bleak
  | BleakDriver.CGet bleak | BleakDriver.CWrite bleak _ => Some bleak
  | _ => None
  end.

(** A transport on which no coming write raises. *)
Definition writes_go_through (w : World) : Prop :=
  Forall (fun fault => fault = false) (write_faults w).

(** *** Further scenarios *)

(** A shutdown during which the application, the device and the two units
    all go on for a while. *)
Definition busy_shutdown : list BleakDriver.action :=
  [BleakDriver.Write 14 (PySeq [x03]);
   BleakDriver.Run 0; BleakDriver.Run 1; BleakDriver.Notification 0 14 [x01];
   BleakDriver.Run 0; BleakDriver.Run 1; BleakDriver.Run 0; BleakDriver.Run 1;
   BleakDriver.Run 0; BleakDriver.Run 1; BleakDriver.Run 0; BleakDriver.Run 1].

(** A handler that raises. *)
Definition bad_handler : BleakDriver.Handler := fun _ _ => Raise HandlerError.

(** The application registers a handler that raises and starts the units;
    a notification arrives during the first sleep of the connection
    thread, and the processing thread takes it from [resp_queue]. *)
Definition notification_for_bad_handler : list BleakDriver.action :=
  [BleakDriver.SetNotifyHandler bad_handler; BleakDriver.EnableNotifications;
   BleakDriver.Run 0; BleakDriver.Run 0; BleakDriver.Run 0; BleakDriver.Run 0;
   BleakDriver.Notification 0 14 [x01];
   BleakDriver.Run 1; BleakDriver.Run 1; BleakDriver.Run 1].

(** A radio on which the request to connect fails. *)
Definition deaf_env : Env :=
  mkEnv (fun _ => true) false false (fun _ => None) lenient_base.


(** The first scan sees another device; the units are started and the
    connection thread is given some steps. *)
Definition late_hub : list (list Device) := [[other_device]; [hub_device]].
Definition started_once : list BleakDriver.action :=
  [BleakDriver.EnableNotifications; BleakDriver.Run 0; BleakDriver.Run 0;
   BleakDriver.Run 0].


(** The application registers a handler and starts the units; and what
    follows that in [two_writes_on]. *)
Definition units_started : list BleakDriver.action :=
  [BleakDriver.SetNotifyHandler ok_handler; BleakDriver.EnableNotifications].
Definition then_two_writes : list BleakDriver.action := skipn 2 two_writes_on.



(** *** The transport writes of one unit *)

(** Where thread [tid] stands, when it is a connection thread. *)
Definition connection_pc (s : BleakDriver.System) (tid : nat)
  : option BleakDriver.conn_pc :=
  match nth_error (BleakDriver.threads s) tid with
  | Some (BleakDriver.ConnectionThread pc) => Some pc
  | _ => None
  end.

Definition is_write_call (c : call) : bool :=
  match c with WriteGattChar _ _ => true | _ => false end.

(** The [write_gatt_char] calls that [_bleak_thread] makes in the step it
    takes from [pc]. *)
Definition unit_writes (uuid : string) (pc : BleakDriver.conn_pc) : list call :=
  match pc with
  | BleakDriver.CKeepalive bleak =>
      match BleakConnection._client bleak with
      | Some _ => [keepalive_call uuid]
      | None => []
      end
  | BleakDriver.CWrite bleak data =>
      match BleakConnection._client bleak with
      | Some cl => [write_call uuid (services cl) data]
      | None => []
      end
  | _ => []
  end.

(** Is the action the step in which thread [tid] sends the keepalive, or
    one in which it takes a write out of [req_queue]? *)
Definition sends_keepalive (tid : nat) (s : BleakDriver.System)
    (a : BleakDriver.action) : bool :=
  match a, connection_pc s tid with
  | BleakDriver.Run t, Some (BleakDriver.CKeepalive _) => Nat.eqb t tid
  | _, _ => false
  end.

Definition takes_write (tid : nat) (s : BleakDriver.System)
    (a : BleakDriver.action) : bool :=
  match a, connection_pc s tid with
  | BleakDriver.Run t, Some (BleakDriver.CGet _) =>
      Nat.eqb t tid && negb (List.length (req_queue (BleakDriver.world s)) =? 0)%nat
  | _, _ => false
  end.

(** The number of actions of a run that [f] holds of, each looked at in
    the state in which it is taken. *)
Fixpoint count_steps (step : BleakDriver.action -> BleakDriver.System -> BleakDriver.System)
    (f : BleakDriver.System -> BleakDriver.action -> bool)
    (tr : list BleakDriver.action) (s : BleakDriver.System) : nat :=
  match tr with
  | [] => 0
  | a :: tr' => (if f s a then 1 else 0) + count_steps step f tr' (step a s)
  end.

(** The coroutine before its loop. *)
Definition before_loop (pc : BleakDriver.conn_pc) : bool :=
  match pc with
  | BleakDriver.CConnect | BleakDriver.CSetNotify _ | BleakDriver.CKeepalive _ => true
  | _ => false
  end.

(** How the keepalives [k] a unit has sent and the writes [q] it has taken
    out of [req_queue] relate to the point at which it stands. *)
Definition keepalive_inv (k q : nat) (pc : BleakDriver.conn_pc) : Prop :=
  match pc with
  | BleakDriver.CConnect | BleakDriver.CSetNotify _ | BleakDriver.CKeepalive _ =>
      k = 0%nat /\ q = 0%nat
  | BleakDriver.CWhile _ | BleakDriver.CSleep _ | BleakDriver.CQsize _
  | BleakDriver.CGet _ | BleakDriver.CWrite _ _ => k = 1%nat
  | BleakDriver.CReturned | BleakDriver.CRaised _ =>
      (k <= 1)%nat /\ ((0 < q)%nat -> k = 1%nat)
  end.

(** A bridge whose thread waits for a notification. *)
Definition idle_bridge : BleakConnection2.Bridge :=
  BleakConnection2.mkBridge hub_conn2 (BleakDriver.fresh_world [] [])
    BleakConnection2.NGet [].

(** * Properties *)

(** ** Bookkeeping *)

Lemma set_log_set_log (a b : list log_record) (w : World) :
  set_log a (set_log b w) = set_log a w.
Proof. reflexivity. Qed.

Lemma examined_app (a b : list log_record) :
  examined (a ++ b) = examined a ++ examined b.
Proof.
  induction a as [|r a IH]; simpl; [reflexivity|].
  destruct r; simpl; rewrite ?IH; reflexivity.
Qed.

Lemma examined_devices (devices : list Device) :
  examined (map DebugDevice devices) = devices.
Proof.
  induction devices as [|d l IH]; simpl; [reflexivity | now rewrite IH].
Qed.

(** The constructors return the blank object, or raise what the base
    constructor raises. *)
Lemma BleakConnection_init_cases (env : Env) :
  (connection_init env 1 = Ok tt /\
   BleakConnection.__init__ env = Ok BleakConnection.blank) \/
  (exists e, connection_init env 1 = Raise e /\
             BleakConnection.__init__ env = Raise e).
Proof.
  unfold BleakConnection.__init__.
  destruct (connection_init env 1) as [[]|e]; [left | right; exists e]; split; reflexivity.
Qed.

Lemma BleakConnection2_init_cases (env : Env) :
  (connection_init env 0 = Ok tt /\
   BleakConnection2.__init__ env = Ok BleakConnection2.blank) \/
  (exists e, connection_init env 0 = Raise e /\
             BleakConnection2.__init__ env = Raise e).
Proof.
  unfold BleakConnection2.__init__.
  destruct (connection_init env 0) as [[]|e]; [left | right; exists e]; split; reflexivity.
Qed.

(** ** Writing to a handle *)

Section WriteProperties.
Variable MOVE_HUB_HW_UUID_CHAR : string.

(** Both write methods make one transport call, on the characteristic that
    [target_uuid] names, with the payload as a byte array. *)
Lemma BleakConnection_write_call (self : BleakConnection.t) (cl : BleakClient)
    (handle : Z) (data : pydata) (w : World) :
  BleakConnection._client self = Some cl ->
  BleakConnection.write MOVE_HUB_HW_UUID_CHAR handle data (self, w) =
  inW (write_gatt_char (target_uuid MOVE_HUB_HW_UUID_CHAR (services cl handle))
         (bytearray data))
    (self, set_log (log w ++ [DebugRequest handle (bytearray data)]) w).
Proof.
  intros Hcl.
  unfold BleakConnection.write, BleakConnection.client_attr, bind, inW, getSelf,
    log_write; simpl.
  rewrite Hcl; simpl.
  destruct (services cl handle) as [d|]; destruct data; simpl;
    unfold write_gatt_char; simpl;
    destruct (hd false (write_faults w)); reflexivity.
Qed.

Lemma BleakConnection2_write_call (self : BleakConnection2.t) (cl : BleakClient)
    (handle : Z) (data : pydata) (w : World) :
  BleakConnection2._client self = Some cl ->
  BleakConnection2.write MOVE_HUB_HW_UUID_CHAR handle data (self, w) =
  inW (write_gatt_char (target_uuid MOVE_HUB_HW_UUID_CHAR (services cl handle))
         (bytearray data))
    (self, w).
Proof.
  intros Hcl.
  unfold BleakConnection2.write, BleakConnection2.client_attr, bind, inW, getSelf.
  simpl. rewrite Hcl; simpl.
  destruct (services cl handle) as [d|]; destruct data; simpl;
    unfold write_gatt_char; simpl;
    destruct (hd false (write_faults w)); reflexivity.
Qed.

Lemma write_gatt_char_calls (uuid : string) (data : list byte) (w : World) :
  calls (snd (write_gatt_char uuid data w)) = calls w ++ [WriteGattChar uuid data].
Proof.
  unfold write_gatt_char. destruct (hd false (write_faults w)); reflexivity.
Qed.

(** C5: a write to a handle for which the client's service collection has
    no descriptor goes to the transport on the default characteristic
    [MOVE_HUB_HW_UUID_CHAR], and a write to a handle with a descriptor goes
    on that descriptor's characteristic; in both cases it is the one
    transport call the method makes.  This holds for
    [BleakConnection.write] and for [BleakConnection2.write]. *)
Theorem C5_write_default_characteristic :
  forall (handle : Z) (data : pydata) (cl : BleakClient) (w : World)
         (conn : BleakConnection.t) (conn2 : BleakConnection2.t),
    BleakConnection._client conn = Some cl ->
    BleakConnection2._client conn2 = Some cl ->
    let after :=
      calls (snd (snd (BleakConnection.write MOVE_HUB_HW_UUID_CHAR handle data (conn, w)))) in
    let after2 :=
      calls (snd (snd (BleakConnection2.write MOVE_HUB_HW_UUID_CHAR handle data (conn2, w)))) in
    (services cl handle = None ->
       after = calls w ++ [WriteGattChar MOVE_HUB_HW_UUID_CHAR (bytearray data)] /\
       after2 = calls w ++ [WriteGattChar MOVE_HUB_HW_UUID_CHAR (bytearray data)]) /\
    (forall desc, services cl handle = Some desc ->
       after = calls w ++ [WriteGattChar (characteristic_uuid desc) (bytearray data)] /\
       after2 = calls w ++ [WriteGattChar (characteristic_uuid desc) (bytearray data)]).
Proof.
  intros handle data cl w conn conn2 Hc Hc2 after after2.
  subst after after2.
  rewrite (BleakConnection_write_call conn cl handle data w Hc).
  rewrite (BleakConnection2_write_call conn2 cl handle data w Hc2).
  unfold inW; simpl.
  split.
  - intros Hnone. rewrite Hnone; simpl.
    split.
    + destruct (write_gatt_char _ _ _) as [r w'] eqn:E.
      simpl. replace w' with (snd (write_gatt_char MOVE_HUB_HW_UUID_CHAR (bytearray data)
        (set_log (log w ++ [DebugRequest handle (bytearray data)]) w))) by now rewrite E.
      now rewrite write_gatt_char_calls.
    + destruct (write_gatt_char _ _ w) as [r w'] eqn:E.
      simpl. replace w' with (snd (write_gatt_char MOVE_HUB_HW_UUID_CHAR (bytearray data) w))
        by now rewrite E.
      now rewrite write_gatt_char_calls.
  - intros desc Hsome. rewrite Hsome; simpl.
    split.
    + destruct (write_gatt_char _ _ _) as [r w'] eqn:E.
      simpl. replace w' with (snd (write_gatt_char (characteristic_uuid desc) (bytearray data)
        (set_log (log w ++ [DebugRequest handle (bytearray data)]) w))) by now rewrite E.
      now rewrite write_gatt_char_calls.
    + destruct (write_gatt_char _ _ w) as [r w'] eqn:E.
      simpl. replace w' with (snd (write_gatt_char (characteristic_uuid desc) (bytearray data) w))
        by now rewrite E.
      now rewrite write_gatt_char_calls.
Qed.
End WriteProperties.

(** ** Discovery and matching *)

Section ConnectProperties.
Variable MOVE_HUB_HW_UUID_CHAR : string.
Variable _is_device_matched :
  string -> option string -> option string -> option string -> bool.
Variable env : Env.
Variables hub_mac hub_name : option string.

Local Abbreviation hit dev := (_is_device_matched (address dev) (name dev) hub_mac hub_name).
Local Abbreviation miss := (no_match _is_device_matched hub_mac hub_name).

(** The inner loop of [BleakConnection2.connect] on a scan without a
    match: every device is looked at and nothing else changes. *)
Lemma for_dev2_miss (devices : list Device) :
  miss devices ->
  forall w,
    BleakConnection2.for_dev _is_device_matched hub_mac hub_name devices w =
    (Ok None, set_log (log w ++ map DebugDevice devices) w).
Proof.
  induction 1 as [|dev rest Hdev _ IH]; intros w; simpl.
  - unfold ret. rewrite app_nil_r. now destruct w.
  - unfold bind, log_write at 1. rewrite Hdev, IH.
    rewrite set_log_set_log. simpl. now rewrite <- app_assoc.
Qed.

(** The inner loop stops at the first match. *)
Lemma for_dev2_hit (before after : list Device) (dev : Device) :
  miss before -> hit dev = true ->
  forall w,
    BleakConnection2.for_dev _is_device_matched hub_mac hub_name
      (before ++ dev :: after) w =
    (Ok (Some dev),
     set_log (log w ++ map DebugDevice before ++ [DebugDevice dev; InfoDeviceMatched dev]) w).
Proof.
  intros Hb Hd. induction Hb as [|x rest Hx _ IH]; intros w; simpl.
  - unfold bind, log_write, ret. rewrite Hd. simpl.
    rewrite set_log_set_log. now rewrite <- app_assoc.
  - unfold bind, log_write at 1. rewrite Hx, IH.
    rewrite set_log_set_log. simpl. now rewrite <- app_assoc.
Qed.

Lemma for_dev_miss (devices : list Device) :
  miss devices ->
  forall self w,
    BleakConnection.for_dev _is_device_matched hub_mac hub_name devices (self, w) =
    (Ok false, (self, set_log (log w ++ map DebugDevice devices) w)).
Proof.
  induction 1 as [|dev rest Hdev _ IH]; intros self w; simpl.
  - unfold ret. rewrite app_nil_r. now destruct w.
  - unfold bind, inW, log_write at 1. simpl. rewrite Hdev, IH.
    rewrite set_log_set_log. simpl. now rewrite <- app_assoc.
Qed.

Lemma for_dev_hit (before after : list Device) (dev : Device) :
  miss before -> hit dev = true ->
  forall self w,
    BleakConnection.for_dev _is_device_matched hub_mac hub_name
      (before ++ dev :: after) (self, w) =
    (Ok true,
     (BleakConnection.set_device (Some dev) self,
      set_log (log w ++ map DebugDevice before ++ [DebugDevice dev; InfoDeviceMatched dev]) w)).
Proof.
  intros Hb Hd. induction Hb as [|x rest Hx _ IH]; intros self w; simpl.
  - unfold bind, inW, log_write, setSelf, ret. simpl. rewrite Hd. simpl.
    rewrite set_log_set_log. now rewrite <- app_assoc.
  - unfold bind, inW, log_write at 1. simpl. rewrite Hx, IH.
    rewrite set_log_set_log. simpl. now rewrite <- app_assoc.
Qed.

Lemma firstn_tl_Forall {A} (P : A -> Prop) (n : nat) (l : list A) :
  Forall P (firstn (S n) l) -> Forall P (firstn n (tl l)).
Proof.
  destruct l as [|x l]; simpl.
  - intros _. destruct n; constructor.
  - now inversion 1.
Qed.

Lemma firstn_hd_miss (n : nat) (l : list (list Device)) :
  Forall miss (firstn (S n) l) -> miss (hd [] l).
Proof.
  destruct l as [|x l]; simpl.
  - intros _. constructor.
  - now inversion 1.
Qed.

(** The outer loop of [BleakConnection2.connect] when none of its [n] scans
    has a match: [n] scans are made and the loop runs out. *)
Lemma for_i_miss (n : nat) :
  forall w,
    Forall miss (firstn n (scans w)) ->
    exists w',
      BleakConnection2.for_i _is_device_matched hub_mac hub_name n w = (Ok None, w') /\
      calls w' = calls w ++ repeat (Discover 1) n.
Proof.
  induction n as [|n IH]; intros w Hall; simpl.
  - exists w. unfold ret. now rewrite app_nil_r.
  - unfold bind at 1. unfold discover at 1.
    unfold bind at 1. unfold log_write at 1.
    unfold bind at 1.
    rewrite (for_dev2_miss _ (firstn_hd_miss _ _ Hall)).
    match goal with |- context [BleakConnection2.for_i _ _ _ n ?w1] =>
      destruct (IH w1) as (w' & Hrun & Hcalls) end.
    { simpl. now apply firstn_tl_Forall. }
    exists w'. split; [exact Hrun|].
    rewrite Hcalls. simpl. now rewrite <- app_assoc.
Qed.

(** The outer loop when the scan after [pre] is the first with a match:
    it makes [length pre + 1] scans and leaves with that scan's first
    match, having looked at no device after it. *)
Lemma for_i_hit (pre : list (list Device)) :
  forall n w post before dev after,
    scans w = pre ++ (before ++ dev :: after) :: post ->
    (List.length pre < n)%nat ->
    Forall miss pre -> miss before -> hit dev = true ->
    exists w',
      BleakConnection2.for_i _is_device_matched hub_mac hub_name n w = (Ok (Some dev), w') /\
      calls w' = calls w ++ repeat (Discover 1) (S (List.length pre)) /\
      examined (log w') = examined (log w) ++ List.concat pre ++ before ++ [dev].
Proof.
  induction pre as [|ds pre IH]; intros n w post before dev after Hs Hn Hpre Hb Hd.
  - destruct n as [|n]; [inversion Hn|]. simpl in Hs |- *.
    unfold bind at 1. unfold discover at 1.
    unfold bind at 1. unfold log_write at 1.
    unfold bind at 1. rewrite Hs. simpl hd.
    rewrite (for_dev2_hit before after dev Hb Hd).
    eexists. split; [reflexivity|]. simpl. split; [reflexivity|].
    rewrite !examined_app, examined_devices. simpl. now rewrite app_nil_r.
  - destruct n as [|n]; [inversion Hn|]. simpl in Hs, Hn |- *.
    inversion Hpre as [|? ? Hds Hpre']; subst.
    unfold bind at 1. unfold discover at 1.
    unfold bind at 1. unfold log_write at 1.
    unfold bind at 1. rewrite Hs. simpl hd.
    rewrite (for_dev2_miss ds Hds).
    match goal with |- context [BleakConnection2.for_i _ _ _ n ?w1] =>
      destruct (IH n w1 post before dev after) as (w' & Hrun & Hcalls & Hlog) end;
      try assumption.
    { reflexivity. }
    { lia. }
    exists w'. split; [exact Hrun|]. split.
    + rewrite Hcalls. simpl. now rewrite <- app_assoc.
    + rewrite Hlog. simpl. rewrite !examined_app, examined_devices. simpl.
      rewrite app_nil_r. now rewrite <- !app_assoc.
Qed.

(** [BleakConnection2.connect] once its loop has left with a device. *)
Lemma connect2_after_hit (self : BleakConnection2.t) (w w1 : World) (dev : Device) :
  BleakConnection2.for_i _is_device_matched hub_mac hub_name 30
    (set_log (log w ++ [InfoDiscovering]) w) = (Ok (Some dev), w1) ->
  let r := BleakConnection2.connect MOVE_HUB_HW_UUID_CHAR _is_device_matched env
             hub_mac hub_name (self, w) in
  calls (snd (snd r)) = calls w1 ++ connect_calls env MOVE_HUB_HW_UUID_CHAR dev /\
  examined (log (snd (snd r))) = examined (log w1) /\
  (connect_fails env (address dev) = false -> start_notify_fails env = false ->
   fst r = Ok tt).
Proof.
  intros Hrun r. subst r.
  unfold BleakConnection2.connect, connect_calls.
  unfold bind, inW, log_write. cbn -[BleakConnection2.for_i]. rewrite Hrun.
  unfold bind, inW, setSelf, getSelf, BleakConnection2.client_attr, client_connect,
    client_start_notify, record_call, log_write, raise, ret; simpl.
  destruct (connect_fails env (address dev)); simpl.
  - repeat split; try reflexivity. discriminate.
  - destruct (start_notify_fails env); simpl.
    + repeat split.
      * now rewrite <- app_assoc.
      * rewrite examined_app. simpl. now rewrite app_nil_r.
      * discriminate.
    + repeat split.
      * now rewrite <- app_assoc.
      * rewrite examined_app. simpl. now rewrite app_nil_r.
Qed.

(** [BleakConnection2.connect] once its loop has run out. *)
Lemma connect2_after_miss (self : BleakConnection2.t) (w w1 : World) :
  BleakConnection2.for_i _is_device_matched hub_mac hub_name 30
    (set_log (log w ++ [InfoDiscovering]) w) = (Ok None, w1) ->
  BleakConnection2.connect MOVE_HUB_HW_UUID_CHAR _is_device_matched env
    hub_mac hub_name (self, w) =
  (Raise (ConnectionError "Device not found."), (self, w1)).
Proof.
  intros Hrun.
  unfold BleakConnection2.connect.
  unfold bind, inW, log_write. cbn -[BleakConnection2.for_i]. rewrite Hrun.
  reflexivity.
Qed.

(** [BleakConnection.connect] makes one scan of ten seconds; without a match
    in it the method raises, whatever later scans would have found. *)
Lemma connect_single_scan_miss (self : BleakConnection.t) (w : World) :
  miss (hd [] (scans w)) ->
  let r := BleakConnection.connect _is_device_matched env hub_mac hub_name (self, w) in
  fst r = Raise (ConnectionError "Device not found.") /\
  fst (snd r) = self /\
  calls (snd (snd r)) = calls w ++ [Discover 10].
Proof.
  intros Hmiss r. subst r.
  unfold BleakConnection.connect.
  unfold bind, inW, log_write, discover. cbn -[BleakConnection.for_dev].
  rewrite (for_dev_miss _ Hmiss). simpl. auto.
Qed.

Lemma connect_single_scan_hit (self : BleakConnection.t) (w : World)
    (before after : list Device) (dev : Device) :
  hd [] (scans w) = before ++ dev :: after ->
  miss before -> hit dev = true ->
  let r := BleakConnection.connect _is_device_matched env hub_mac hub_name (self, w) in
  BleakConnection._device (fst (snd r)) = Some dev /\
  calls (snd (snd r)) = calls w ++ [Discover 10; ClientConnect (address dev)] /\
  examined (log (snd (snd r))) = examined (log w) ++ before ++ [dev] /\
  (connect_fails env (address dev) = false ->
   fst r = Ok tt /\
   BleakConnection._client (fst (snd r)) =
     Some (mkClient (address dev) true (gatt_table env)) /\
   write_faults (snd (snd r)) = write_faults w /\
   req_queue (snd (snd r)) = req_queue w /\
   resp_queue (snd (snd r)) = resp_queue w).
Proof.
  intros Hscan Hb Hd r. subst r.
  unfold BleakConnection.connect.
  unfold bind, inW, log_write, discover. cbn -[BleakConnection.for_dev]. rewrite Hscan.
  rewrite (for_dev_hit before after dev Hb Hd).
  unfold bind, inW, setSelf, getSelf, BleakConnection.client_attr, client_connect,
    record_call, log_write, raise, ret; simpl.
  destruct (connect_fails env (address dev)); simpl.
  - repeat split; try discriminate.
    + now rewrite <- app_assoc.
    + rewrite !examined_app, examined_devices. simpl.
      rewrite ?app_nil_r, <- ?app_assoc. reflexivity.
  - repeat split.
    + now rewrite <- app_assoc.
    + rewrite !examined_app, examined_devices. simpl.
      rewrite ?app_nil_r, <- ?app_assoc. reflexivity.
Qed.

Lemma scan_split (devices : list Device) :
  miss devices \/
  exists before dev after,
    devices = before ++ dev :: after /\ miss before /\ hit dev = true.
Proof.
  induction devices as [|d l IH].
  - left. constructor.
  - destruct (hit d) eqn:Hd.
    + right. exists [], d, l. repeat split; [constructor | exact Hd].
    + destruct IH as [IH | (before & dev & after & -> & Hb & Hdev)].
      * left. now constructor.
      * right. exists (d :: before), dev, after.
        repeat split; [now constructor | exact Hdev].
Qed.

(** What [BleakConnection.connect] can do to the world, whatever the scan:
    it leaves the queues alone, and either raises after the scan or after
    the request to connect, or returns with a connected client. *)
Lemma connect_outcome (self : BleakConnection.t) (w : World) :
  let r := BleakConnection.connect _is_device_matched env hub_mac hub_name (self, w) in
  req_queue (snd (snd r)) = req_queue w /\
  resp_queue (snd (snd r)) = resp_queue w /\
  (((exists e, fst r = Raise e) /\
    (calls (snd (snd r)) = calls w ++ [Discover 10] \/
     exists addr, calls (snd (snd r)) = calls w ++ [Discover 10; ClientConnect addr])) \/
   (exists addr,
      fst r = Ok tt /\
      calls (snd (snd r)) = calls w ++ [Discover 10; ClientConnect addr] /\
      BleakConnection._client (fst (snd r)) =
        Some (mkClient addr true (gatt_table env)))).
Proof.
  intros r. subst r.
  unfold BleakConnection.connect.
  unfold bind, inW, log_write, discover. cbn -[BleakConnection.for_dev].
  destruct (scan_split (hd [] (scans w)))
    as [Hmiss | (before & dev & after & Hscan & Hb & Hd)].
  - rewrite (for_dev_miss _ Hmiss). simpl.
    split; [reflexivity|]. split; [reflexivity|].
    left. split; [eexists; reflexivity | left; reflexivity].
  - rewrite Hscan. rewrite (for_dev_hit before after dev Hb Hd).
    unfold bind, inW, setSelf, getSelf, BleakConnection.client_attr, client_connect,
      record_call, log_write, raise, ret; simpl.
    destruct (connect_fails env (address dev)); simpl.
    + split; [reflexivity|]. split; [reflexivity|].
      left. split; [eexists; reflexivity|]. right. exists (address dev).
      now rewrite <- app_assoc.
    + split; [reflexivity|]. split; [reflexivity|].
      right. exists (address dev). split; [reflexivity|].
      split; [now rewrite <- app_assoc | reflexivity].
Qed.

(** C6: the device [connect] selects is the first one, in scan order, that
    the matcher accepts: the method asks the transport to connect to its
    address ([BleakConnection] also stores it in [_device]), and the
    devices it examined are exactly those seen up to and including that
    one, so none after the first match is looked at.  This holds for every
    target and every matcher; for [BleakConnection.connect] the devices are
    those of its one scan, for [BleakConnection2.connect] those of its
    scans up to the first one with a match. *)
Theorem C6_first_match_wins :
  forall (w : World) (before after : list Device) (dev : Device)
         (conn : BleakConnection.t) (conn2 : BleakConnection2.t),
    miss before ->
    hit dev = true ->
    let r := BleakConnection.connect _is_device_matched env hub_mac hub_name (conn, w) in
    let r2 := BleakConnection2.connect MOVE_HUB_HW_UUID_CHAR _is_device_matched env
                hub_mac hub_name (conn2, w) in
    (forall later,
        scans w = (before ++ dev :: after) :: later ->
        BleakConnection._device (fst (snd r)) = Some dev /\
        calls (snd (snd r)) = calls w ++ [Discover 10; ClientConnect (address dev)] /\
        examined (log (snd (snd r))) = examined (log w) ++ before ++ [dev]) /\
    (forall pre later,
        scans w = pre ++ (before ++ dev :: after) :: later ->
        (List.length pre < 30)%nat ->
        Forall miss pre ->
        calls (snd (snd r2)) =
          calls w ++ repeat (Discover 1) (S (List.length pre))
                  ++ connect_calls env MOVE_HUB_HW_UUID_CHAR dev /\
        examined (log (snd (snd r2))) =
          examined (log w) ++ List.concat pre ++ before ++ [dev]).
Proof.
  intros w before after dev conn conn2 Hb Hd r r2.
  split.
  - intros later Hs.
    destruct (connect_single_scan_hit conn w before after dev) as (H1 & H2 & H3 & _);
      try assumption.
    + now rewrite Hs.
    + auto.
  - intros pre later Hs Hlen Hpre.
    destruct (for_i_hit pre 30 (set_log (log w ++ [InfoDiscovering]) w)
                later before dev after) as (w1 & Hrun & Hcalls & Hlog);
      try assumption.
    destruct (connect2_after_hit conn2 w w1 dev Hrun) as (H1 & H2 & _).
    subst r2. rewrite H1, H2, Hcalls, Hlog. simpl calls. simpl log.
    rewrite examined_app. simpl examined. rewrite app_nil_r.
    split; [now rewrite <- app_assoc | reflexivity].
Qed.

(** C1, as the code has it: [BleakConnection2.connect] repeats scans of one
    second, at most thirty of them; when the first scan with a match comes
    after [pre] scans without one, it makes [length pre + 1] scans, asks the
    transport once to connect to the first match of that scan, and succeeds
    if the transport does; when none of the thirty scans has a match it
    raises [ConnectionError('Device not found.')] after thirty scans.
    [BleakConnection.connect], the one the driver runs, makes a single scan
    of ten seconds and raises the same error when that scan has no match. *)
Theorem C1_connect_scans :
  forall (w : World) (conn : BleakConnection.t) (conn2 : BleakConnection2.t),
    let r := BleakConnection.connect _is_device_matched env hub_mac hub_name (conn, w) in
    let r2 := BleakConnection2.connect MOVE_HUB_HW_UUID_CHAR _is_device_matched env
                hub_mac hub_name (conn2, w) in
    (forall pre post before dev after,
        scans w = pre ++ (before ++ dev :: after) :: post ->
        (List.length pre < 30)%nat ->
        Forall miss pre -> miss before -> hit dev = true ->
        calls (snd (snd r2)) =
          calls w ++ repeat (Discover 1) (S (List.length pre))
                  ++ connect_calls env MOVE_HUB_HW_UUID_CHAR dev /\
        (connect_fails env (address dev) = false ->
         start_notify_fails env = false -> fst r2 = Ok tt)) /\
    (Forall miss (firstn 30 (scans w)) ->
        fst r2 = Raise (ConnectionError "Device not found.") /\
        calls (snd (snd r2)) = calls w ++ repeat (Discover 1) 30) /\
    (miss (hd [] (scans w)) ->
        fst r = Raise (ConnectionError "Device not found.") /\
        calls (snd (snd r)) = calls w ++ [Discover 10]).
Proof.
  intros w conn conn2 r r2. split; [|split].
  - intros pre post before dev after Hs Hlen Hpre Hb Hd.
    destruct (for_i_hit pre 30 (set_log (log w ++ [InfoDiscovering]) w)
                post before dev after) as (w1 & Hrun & Hcalls & _);
      try assumption.
    destruct (connect2_after_hit conn2 w w1 dev Hrun) as (H1 & _ & H3).
    subst r2. split; [|exact H3].
    rewrite H1, Hcalls. simpl calls. now rewrite <- app_assoc.
  - intros Hall.
    destruct (for_i_miss 30 (set_log (log w ++ [InfoDiscovering]) w))
      as (w1 & Hrun & Hcalls); [exact Hall|].
    subst r2. rewrite (connect2_after_miss conn2 w w1 Hrun).
    split; [reflexivity | exact Hcalls].
  - intros Hmiss.
    destruct (connect_single_scan_miss conn w Hmiss) as (H1 & _ & H3).
    split; assumption.
Qed.
End ConnectProperties.

(** ** The driver and its two threads *)

Lemma nth_error_set_nth_same {A} (l : list A) :
  forall n x y, nth_error l n = Some y -> nth_error (BleakDriver.set_nth n x l) n = Some x.
Proof.
  induction l as [|a l IH]; intros [|n] x y H; simpl in *; try discriminate.
  - reflexivity.
  - eapply IH; eassumption.
Qed.

Lemma nth_error_set_nth_other {A} (l : list A) :
  forall n m x, n <> m -> nth_error (BleakDriver.set_nth n x l) m = nth_error l m.
Proof.
  induction l as [|a l IH]; intros [|n] [|m] x H; simpl in *; try reflexivity.
  - congruence.
  - apply IH. congruence.
Qed.

Lemma length_set_nth {A} (l : list A) :
  forall n x, List.length (BleakDriver.set_nth n x l) = List.length l.
Proof.
  induction l as [|a l IH]; intros [|n] x; simpl; auto.
Qed.

(** Replacing a thread by one of the same kind keeps the count of a kind. *)
Lemma filter_set_nth (f : BleakDriver.Thread -> bool) (l : list BleakDriver.Thread) :
  forall n x y,
    nth_error l n = Some y -> f x = f y ->
    List.length (filter f (BleakDriver.set_nth n x l)) = List.length (filter f l).
Proof.
  induction l as [|a l IH]; intros [|n] x y H Hf; simpl in *; try discriminate.
  - inversion H; subst. rewrite Hf. now destruct (f y).
  - destruct (f a); simpl; erewrite IH; eauto.
Qed.

Section DriverProperties.
Variable MOVE_HUB_HW_UUID_CHAR : string.
Variable _is_device_matched :
  string -> option string -> option string -> option string -> bool.
Variable env : Env.

Local Abbreviation step := (BleakDriver.step MOVE_HUB_HW_UUID_CHAR _is_device_matched env).
Local Abbreviation run := (BleakDriver.run MOVE_HUB_HW_UUID_CHAR _is_device_matched env).
Local Abbreviation conn_step :=
  (BleakDriver._bleak_thread MOVE_HUB_HW_UUID_CHAR _is_device_matched env).

(** C2: on a driver whose [enable_notifications] was never called, [write]
    does not raise the [ConnectionError] that its docstring announces: the
    thread fields are still [None] and the call ends in an
    [AttributeError], for every handle and payload.  Once the fields are
    bound, a write while the two threads are not both alive raises that
    [ConnectionError] and puts nothing into [req_queue]. *)
Theorem C2_write_not_running :
  forall (handle : Z) (data : pydata),
    (forall hub_mac hub_name scans faults,
        let s := BleakDriver.fresh hub_mac hub_name scans faults in
        BleakDriver.write handle data s = (Raise (AttributeError "is_alive"), s)) /\
    (forall s ct pt,
        BleakDriver._connection_thread (BleakDriver.self s) = Some ct ->
        BleakDriver._processing_thread (BleakDriver.self s) = Some pt ->
        BleakDriver.is_alive s = false ->
        BleakDriver.write handle data s = (Raise BleakDriver.not_functioning, s)).
Proof.
  intros handle data. split.
  - reflexivity.
  - intros s ct pt Hc Hp Halive.
    unfold BleakDriver.is_alive in Halive. unfold BleakDriver.write.
    rewrite Hc, Hp in *.
    destruct (BleakDriver.tid_is_alive s ct); simpl in *; [|reflexivity].
    now rewrite Halive.
Qed.

(** C9 as the code has it: every call of [enable_notifications] creates and
    starts a new connection thread and a new processing thread, without
    looking at the ones already started, and binds the two fields to the
    new pair; along any run the number of threads of either kind that
    were started is the number they were before plus the number of calls
    of [enable_notifications]. *)
Theorem C9_enable_notifications_starts_new_units :
  (forall s,
      let s' := BleakDriver.enable_notifications s in
      let ct := List.length (BleakDriver.threads s) in
      BleakDriver.threads s' =
        BleakDriver.threads s ++
        [BleakDriver.ConnectionThread BleakDriver.CConnect;
         BleakDriver.ProcessingThread BleakDriver.PWhile] /\
      BleakDriver._connection_thread (BleakDriver.self s') = Some ct /\
      BleakDriver._processing_thread (BleakDriver.self s') = Some (S ct) /\
      BleakDriver.tid_is_alive s' ct = true /\
      BleakDriver.tid_is_alive s' (S ct) = true) /\
  (forall tr s,
      count_threads is_connection_thread (run tr s) =
        (count_threads is_connection_thread s + BleakDriver.count_enable tr)%nat /\
      count_threads is_processing_thread (run tr s) =
        (count_threads is_processing_thread s + BleakDriver.count_enable tr)%nat).
Proof.
  split.
  - intros s s' ct. subst s' ct.
    assert (Ht : BleakDriver.threads (BleakDriver.enable_notifications s) =
                 BleakDriver.threads s ++
                 [BleakDriver.ConnectionThread BleakDriver.CConnect;
                  BleakDriver.ProcessingThread BleakDriver.PWhile]) by reflexivity.
    unfold BleakDriver.tid_is_alive. rewrite Ht.
    split; [reflexivity|]. split; [reflexivity|]. split; [reflexivity|]. split.
    + rewrite nth_error_app2 by lia. now rewrite Nat.sub_diag.
    + rewrite nth_error_app2 by lia.
      replace (S (List.length (BleakDriver.threads s)) - List.length (BleakDriver.threads s))%nat
        with 1%nat by lia.
      reflexivity.
  - induction tr as [|a tr IH]; intros s.
    + simpl. unfold BleakDriver.count_enable. simpl. lia.
    + change (run (a :: tr) s) with (run tr (step a s)).
      destruct (IH (step a s)) as [IHc IHp]. rewrite IHc, IHp.
      unfold BleakDriver.count_enable, count_threads in *.
      destruct a; simpl; try lia.
      * rewrite !filter_app, !length_app. simpl. lia.
      * unfold BleakDriver.write.
        destruct (BleakDriver._connection_thread _); simpl; [|lia].
        destruct (negb _); simpl; [lia|].
        destruct (BleakDriver._processing_thread _); simpl; [|lia].
        destruct (negb _); simpl; lia.
      * destruct (nth_error (BleakDriver.threads s) tid) as [[pc|pc]|] eqn:E; [| |lia].
        -- destruct (BleakDriver._bleak_thread _ _ _ _ pc _) as [pc' w'].
           simpl. rewrite !(filter_set_nth _ _ _ _ _ E) by reflexivity. lia.
        -- destruct (BleakDriver._processing _ pc _) as [[pc' w'] inv].
           simpl. rewrite !(filter_set_nth _ _ _ _ _ E) by reflexivity. lia.
      * destruct (BleakDriver.can_notify s tid); simpl; lia.
Qed.

(** C8 as the code has it: [BleakDriver.disconnect] only sets the shutdown
    flag; it cannot raise, says nothing to the transport, and the
    connection thread that sees the flag leaves its loop without a
    transport call either.  [BleakConnection2.disconnect] sets its flag and
    asks the transport to close the link only when the client reports that
    it is connected; the request is its one transport call, nothing is
    logged after it, and the method returns normally exactly when the
    transport does: a failure of the transport is raised to the caller. *)
Theorem C8_disconnect_as_written :
  (forall s,
      let s' := BleakDriver.disconnect s in
      BleakDriver._abort (BleakDriver.self s') = true /\
      BleakDriver.world s' = BleakDriver.world s /\
      BleakDriver.threads s' = BleakDriver.threads s) /\
  (forall d bleak w,
      BleakDriver._abort d = true ->
      conn_step d (BleakDriver.CWhile bleak) w =
      (BleakDriver.CReturned, set_log (log w ++ [InfoCommunicationsExited]) w)) /\
  (forall (conn2 : BleakConnection2.t) (cl : BleakClient) (w : World),
      BleakConnection2._client conn2 = Some cl ->
      let r := BleakConnection2.disconnect env (conn2, w) in
      BleakConnection2._abort (fst (snd r)) = true /\
      (is_connected cl = false ->
         fst r = Ok tt /\ calls (snd (snd r)) = calls w) /\
      (is_connected cl = true ->
         calls (snd (snd r)) = calls w ++ [ClientDisconnect (cl_address cl)] /\
         log (snd (snd r)) = log w ++ [DebugCheckingAlive; DebugDisconnecting] /\
         fst r = if disconnect_fails env
                 then Raise (BleakError "disconnect") else Ok tt)).
Proof.
  split; [|split].
  - intros s. cbv zeta. repeat split.
  - intros d bleak w Habort. simpl. now rewrite Habort.
  - intros conn2 cl w Hcl r. subst r.
    unfold BleakConnection2.disconnect, BleakConnection2.is_alive,
      BleakConnection2.client_attr, client_disconnect, record_call,
      bind, inW, setSelf, getSelf, log_write, raise, ret.
    simpl. rewrite Hcl. simpl.
    destruct (is_connected cl); simpl.
    + rewrite Hcl. simpl.
      destruct (disconnect_fails env); simpl.
      * split; [reflexivity|]. split; [discriminate|]. intros _.
        rewrite <- app_assoc. auto.
      * split; [reflexivity|]. split; [discriminate|]. intros _.
        rewrite <- app_assoc. auto.
    + split; [reflexivity|]. split; [auto | discriminate].
Qed.


(** *** One pair of units: the invariants *)

Local Abbreviation winv := (write_inv MOVE_HUB_HW_UUID_CHAR env).

Lemma in_loop_calls_snoc (sent : list (Z * pydata)) (cs : list call) (data : Z * pydata) :
  in_loop_calls MOVE_HUB_HW_UUID_CHAR env sent cs ->
  in_loop_calls MOVE_HUB_HW_UUID_CHAR env (sent ++ [data])
    (cs ++ [write_call MOVE_HUB_HW_UUID_CHAR (gatt_table env) data]).
Proof.
  intros [addr ->]. exists addr.
  rewrite map_app, <- app_assoc. reflexivity.
Qed.

(** A step of the connection thread keeps [write_inv] and leaves
    [resp_queue] alone. *)
Lemma conn_step_inv (d : BleakDriver.t) (pc : BleakDriver.conn_pc) (w : World)
    (enq : list (Z * pydata)) :
  winv enq pc w ->
  winv enq (fst (conn_step d pc w)) (snd (conn_step d pc w)) /\
  resp_queue (snd (conn_step d pc w)) = resp_queue w.
Proof.
  intros Hinv. destruct pc as [|bleak|bleak|bleak|bleak|bleak|bleak|bleak data| |e];
    unfold BleakDriver._bleak_thread.
  - (* connect *)
    destruct Hinv as [Hcalls Henq].
    destruct (BleakConnection_init_cases env) as [[_ Hi] | (e & _ & Hi)]; rewrite Hi;
      [|simpl; split; [|reflexivity]; left; exists "", 0%nat; now rewrite Hcalls].
    pose proof (connect_outcome _is_device_matched env
                  (BleakDriver.hub_mac d) (BleakDriver.hub_name d)
                  BleakConnection.blank w) as Hout.
    cbv zeta in Hout.
    destruct (BleakConnection.connect _ _ _ _ _) as [[a|e] [b w']].
    + simpl in *. destruct Hout as (Hq & Hr & [[[e He] _] | (addr & _ & Hc & Hcl)]);
        [discriminate|].
      split; [|exact Hr]. split; [|split].
      * eexists. split; [exact Hcl | reflexivity].
      * exists addr. now rewrite Hc, Hcalls.
      * congruence.
    + simpl in *. destruct Hout as (Hq & Hr & [[_ Hc] | (addr & He & _)]);
        [|discriminate].
      split; [|exact Hr]. left.
      destruct Hc as [Hc | [addr Hc]]; rewrite Hc, Hcalls.
      * exists "", 1%nat. reflexivity.
      * exists addr, 2%nat. reflexivity.
  - (* set_notify_handler *)
    destruct Hinv as ((cl & Hcl & Hsv) & (addr & Hcalls) & Henq).
    unfold BleakConnection.set_notify_handler, BleakConnection.client_attr,
      client_start_notify, record_call, bind, inW, getSelf, raise, ret.
    simpl. rewrite Hcl. simpl.
    destruct (start_notify_fails env); simpl.
    + split; [|reflexivity]. left. exists addr, 3%nat. now rewrite Hcalls.
    + split; [|reflexivity]. split; [|split].
      * now exists cl.
      * exists addr. now rewrite Hcalls.
      * exact Henq.
  - (* the keepalive *)
    destruct Hinv as ((cl & Hcl & Hsv) & (addr & Hcalls) & Henq).
    unfold BleakConnection.write_char, BleakConnection.client_attr,
      write_gatt_char, bind, inW, getSelf, raise, ret.
    simpl. rewrite Hcl. simpl.
    destruct (hd false (write_faults w)); simpl.
    + split; [|reflexivity]. right. exists [], enq. split; [|reflexivity].
      exists addr. now rewrite Hcalls.
    + split; [|reflexivity]. split; [now exists cl|].
      exists []. split; [|exact Henq]. exists addr. now rewrite Hcalls.
  - (* while *)
    destruct Hinv as (Hcl & sent & Hcalls & Henq).
    destruct (BleakDriver._abort d); simpl.
    + split; [|reflexivity]. right. now exists sent, (req_queue w).
    + split; [|reflexivity]. split; [exact Hcl|]. now exists sent.
  - (* sleep *)
    simpl. split; [exact Hinv | reflexivity].
  - (* qsize *)
    destruct (negb _); simpl; (split; [exact Hinv | reflexivity]).
  - (* get *)
    destruct Hinv as (Hcl & sent & Hcalls & Henq).
    destruct (req_queue w) as [|data rest] eqn:Hq; simpl.
    + split; [|reflexivity]. split; [exact Hcl|]. exists sent. now rewrite Hq.
    + split; [|reflexivity]. split; [exact Hcl|]. now exists sent.
  - (* write *)
    destruct Hinv as ((cl & Hcl & Hsv) & sent & Hcalls & Henq).
    rewrite (BleakConnection_write_call MOVE_HUB_HW_UUID_CHAR bleak cl _ _ _ Hcl).
    unfold inW, write_gatt_char. simpl. rewrite Hsv.
    fold (write_call MOVE_HUB_HW_UUID_CHAR (gatt_table env) data).
    destruct (hd false (write_faults w)); simpl.
    + split; [|reflexivity]. right. exists (sent ++ [data]), (req_queue w).
      split; [now apply in_loop_calls_snoc|].
      rewrite Henq, <- app_assoc. reflexivity.
    + split; [|reflexivity]. split; [now exists cl|].
      exists (sent ++ [data]). split; [now apply in_loop_calls_snoc|].
      rewrite Henq, <- app_assoc. reflexivity.
  - simpl. split; [exact Hinv | reflexivity].
  - simpl. split; [exact Hinv | reflexivity].
Qed.

Lemma write_inv_ext (enq : list (Z * pydata)) (pc : BleakDriver.conn_pc) (w w' : World) :
  calls w' = calls w -> req_queue w' = req_queue w ->
  winv enq pc w -> winv enq pc w'.
Proof.
  intros Hc Hq. destruct pc; simpl; rewrite ?Hc, ?Hq; exact (fun H => H).
Qed.

Lemma notify_inv_ext (rcv : list (Z * list byte)) (pc : BleakDriver.proc_pc)
    (w w' : World) (hs : list (Z * list byte)) :
  resp_queue w' = resp_queue w ->
  notify_inv rcv pc w hs -> notify_inv rcv pc w' hs.
Proof.
  intros Hq. destruct pc; simpl; rewrite ?Hq; exact (fun H => H).
Qed.

(** An accepted write goes to the end of [req_queue]. *)
Lemma write_inv_put (enq : list (Z * pydata)) (pc : BleakDriver.conn_pc) (w : World)
    (item : Z * pydata) :
  winv enq pc w ->
  BleakDriver.thread_is_alive (BleakDriver.ConnectionThread pc) = true ->
  winv (enq ++ [item]) pc (set_req_queue (req_queue w ++ [item]) w).
Proof.
  intros Hinv Halive. destruct pc; simpl in *; try discriminate.
  - destruct Hinv as [Hc ->]. auto.
  - destruct Hinv as (Hcl & Hc & ->). auto.
  - destruct Hinv as (Hcl & Hc & ->). auto.
  - destruct Hinv as (Hcl & sent & Hc & ->). split; [exact Hcl|].
    exists sent. split; [exact Hc | now rewrite <- app_assoc].
  - destruct Hinv as (Hcl & sent & Hc & ->). split; [exact Hcl|].
    exists sent. split; [exact Hc | now rewrite <- app_assoc].
  - destruct Hinv as (Hcl & sent & Hc & ->). split; [exact Hcl|].
    exists sent. split; [exact Hc | now rewrite <- app_assoc].
  - destruct Hinv as (Hcl & sent & Hc & ->). split; [exact Hcl|].
    exists sent. split; [exact Hc | now rewrite <- app_assoc].
  - destruct Hinv as (Hcl & sent & Hc & ->). split; [exact Hcl|].
    exists sent. split; [exact Hc | now rewrite <- app_assoc].
Qed.

(** A notification goes to the end of [resp_queue]. *)
Lemma notify_inv_put (rcv : list (Z * list byte)) (pc : BleakDriver.proc_pc)
    (w w' : World) (hs : list (Z * list byte)) (msg : Z * list byte) :
  resp_queue w' = resp_queue w ++ [msg] ->
  notify_inv rcv pc w hs ->
  notify_inv (rcv ++ [msg]) pc w' hs.
Proof.
  intros Hq Hinv. destruct pc; simpl in *; rewrite ?Hq.
  - rewrite Hinv. now rewrite <- app_assoc.
  - rewrite Hinv. now rewrite <- app_assoc.
  - rewrite Hinv. now rewrite <- app_assoc.
  - rewrite Hinv. now rewrite <- app_assoc.
  - rewrite Hinv. now rewrite <- app_assoc.
  - destruct Hinv as [rest ->]. exists (rest ++ [msg]). now rewrite <- app_assoc.
  - destruct Hinv as [rest ->]. exists (rest ++ [msg]). now rewrite <- app_assoc.
Qed.

(** A step of the processing thread keeps [notify_inv] and leaves the
    transport's trace and [req_queue] alone. *)
Lemma proc_step_inv (d : BleakDriver.t) (pc : BleakDriver.proc_pc) (w : World)
    (hs rcv : list (Z * list byte)) :
  notify_inv rcv pc w hs ->
  let r := BleakDriver._processing d pc w in
  notify_inv rcv (fst (fst r)) (snd (fst r)) (hs ++ snd r) /\
  calls (snd (fst r)) = calls w /\
  req_queue (snd (fst r)) = req_queue w.
Proof.
  intros Hinv r. subst r. destruct pc as [| | |msg| | |e]; simpl in *.
  - destruct (BleakDriver._abort d); simpl; rewrite app_nil_r.
    + split; [now exists (resp_queue w) | auto].
    + auto.
  - destruct (negb _); simpl; rewrite app_nil_r; auto.
  - destruct (resp_queue w) as [|msg rest] eqn:Hq; simpl; rewrite app_nil_r.
    + rewrite Hq. auto.
    + auto.
  - destruct (BleakDriver._handler d) as [handler|]; simpl.
    + destruct (handler (fst msg) (snd msg)); simpl.
      * split; [|auto]. rewrite Hinv, <- app_assoc. reflexivity.
      * split; [|auto]. exists (resp_queue w). rewrite Hinv, <- app_assoc. reflexivity.
    + rewrite app_nil_r. split; [|auto]. now exists (msg :: resp_queue w).
  - rewrite app_nil_r. auto.
  - rewrite app_nil_r. auto.
  - rewrite app_nil_r. auto.
Qed.

Local Abbreviation sinv := (sys_inv MOVE_HUB_HW_UUID_CHAR env).
Local Abbreviation enqueued :=
  (BleakDriver.enqueued MOVE_HUB_HW_UUID_CHAR _is_device_matched env).
Local Abbreviation received :=
  (BleakDriver.received MOVE_HUB_HW_UUID_CHAR _is_device_matched env).

Lemma awaiting_alive (th : BleakDriver.Thread) :
  BleakDriver.awaiting th = true -> BleakDriver.thread_is_alive th = true.
Proof.
  destruct th as [pc|pc]; [destruct pc|]; simpl; congruence.
Qed.

(** What [write] does once the fields are bound to the two threads. *)
Lemma write_cases (s : BleakDriver.System) (cpc : BleakDriver.conn_pc)
    (ppc : BleakDriver.proc_pc) (handle : Z) (data : pydata) :
  BleakDriver.threads s =
    [BleakDriver.ConnectionThread cpc; BleakDriver.ProcessingThread ppc] ->
  BleakDriver._connection_thread (BleakDriver.self s) = Some 0%nat ->
  BleakDriver._processing_thread (BleakDriver.self s) = Some 1%nat ->
  (BleakDriver.thread_is_alive (BleakDriver.ConnectionThread cpc) = true /\
   BleakDriver.write handle data s =
     (Ok tt,
      BleakDriver.set_world
        (set_req_queue (req_queue (BleakDriver.world s) ++ [(handle, data)])
           (BleakDriver.world s)) s)) \/
  (exists e, BleakDriver.write handle data s = (Raise e, s)).
Proof.
  intros Hth Hct Hpt.
  unfold BleakDriver.write. rewrite Hct, Hpt.
  unfold BleakDriver.tid_is_alive. rewrite Hth. cbn [nth_error].
  destruct (BleakDriver.thread_is_alive (BleakDriver.ConnectionThread cpc));
    destruct (BleakDriver.thread_is_alive (BleakDriver.ProcessingThread ppc));
    cbn [negb]; eauto.
Qed.

(** Every step keeps the invariant, as long as [enable_notifications] is
    not called on a driver whose units were started. *)
Lemma step_inv (a : BleakDriver.action) (s : BleakDriver.System)
    (enq : list (Z * pydata)) (rcv : list (Z * list byte)) :
  sinv enq rcv s ->
  (a = BleakDriver.EnableNotifications -> BleakDriver.threads s = []) ->
  sinv (enq ++ enqueued [a] s) (rcv ++ received [a] s) (step a s).
Proof.
  intros [H0 | H2] Hen.
  - destruct H0 as (Hth & Hct & Hc & Hq & -> & Hr & Hh & ->).
    destruct a as [handler| |handle data| |tid|tid handle data]; simpl.
    + left. repeat split; assumption.
    + right. exists BleakDriver.CConnect, BleakDriver.PWhile.
      unfold BleakDriver.enable_notifications. rewrite Hth. simpl.
      repeat split; try reflexivity.
      * exact Hc.
      * now rewrite Hq.
      * now rewrite Hh, Hr.
    + unfold BleakDriver.write. rewrite Hct. simpl.
      left. repeat split; assumption.
    + left. repeat split; assumption.
    + rewrite Hth. destruct tid; simpl; left; repeat split; assumption.
    + unfold BleakDriver.can_notify. rewrite Hth.
      destruct tid; simpl; left; repeat split; assumption.
  - destruct H2 as (cpc & ppc & Hth & Hct & Hpt & Hw & Hn).
    destruct a as [handler| |handle data| |tid|tid handle data];
      [simpl|simpl| |simpl|simpl|simpl].
    + rewrite !app_nil_r. right. exists cpc, ppc. repeat split; assumption.
    + rewrite Hen in Hth by reflexivity. discriminate.
    + destruct (write_cases s cpc ppc handle data Hth Hct Hpt)
        as [(Hca & Hwr) | (e & Hwr)];
        unfold BleakDriver.step, BleakDriver.enqueued, BleakDriver.received;
        rewrite Hwr; simpl.
      * rewrite !app_nil_r. right. exists cpc, ppc.
        repeat split; try assumption.
        now apply write_inv_put.
      * rewrite !app_nil_r. right. exists cpc, ppc. repeat split; assumption.
    + rewrite !app_nil_r. right. exists cpc, ppc. repeat split; assumption.
    + rewrite !app_nil_r. rewrite Hth.
      destruct tid as [|[|tid]]; simpl nth_error.
      * destruct (conn_step_inv (BleakDriver.self s) cpc (BleakDriver.world s) enq Hw)
          as [Hw' Hr'].
        destruct (BleakDriver._bleak_thread _ _ _ _ cpc _) as [pc' w'].
        simpl in *. right. exists pc', ppc. repeat split; try assumption.
        eapply notify_inv_ext; eassumption.
      * destruct (proc_step_inv (BleakDriver.self s) ppc (BleakDriver.world s)
                    (BleakDriver.handled s) rcv Hn) as (Hn' & Hc' & Hq').
        destruct (BleakDriver._processing _ ppc _) as [[pc' w'] inv].
        simpl in *. right. exists cpc, pc'. repeat split; try assumption.
        eapply write_inv_ext; eassumption.
      * destruct tid; simpl; right; exists cpc, ppc; repeat split; assumption.
    + unfold BleakDriver.can_notify. rewrite Hth.
      destruct tid as [|[|tid]]; simpl nth_error.
      * destruct (BleakDriver.awaiting (BleakDriver.ConnectionThread cpc)) eqn:Haw.
        -- rewrite !app_nil_r. right. exists cpc, ppc. simpl.
           split; [assumption|]. split; [assumption|]. split; [assumption|]. split.
           ++ eapply write_inv_ext; [| |exact Hw]; reflexivity.
           ++ eapply notify_inv_put; [|exact Hn]. reflexivity.
        -- rewrite !app_nil_r. right. exists cpc, ppc. repeat split; assumption.
      * simpl. rewrite !app_nil_r. right. exists cpc, ppc. repeat split; assumption.
      * destruct tid; simpl; rewrite !app_nil_r; right; exists cpc, ppc;
          repeat split; assumption.
Qed.

Lemma step_threads_length (a : BleakDriver.action) (s : BleakDriver.System) :
  a <> BleakDriver.EnableNotifications ->
  List.length (BleakDriver.threads (step a s)) = List.length (BleakDriver.threads s).
Proof.
  intros Ha. destruct a as [handler| |handle data| |tid|tid handle data]; simpl;
    try reflexivity.
  - congruence.
  - unfold BleakDriver.write.
    destruct (BleakDriver._connection_thread _); [|reflexivity].
    destruct (negb _); [reflexivity|].
    destruct (BleakDriver._processing_thread _); [|reflexivity].
    destruct (negb _); reflexivity.
  - destruct (nth_error (BleakDriver.threads s) tid) as [[pc|pc]|]; [| |reflexivity].
    + destruct (BleakDriver._bleak_thread _ _ _ _ pc _) as [pc' w'].
      simpl. apply length_set_nth.
    + destruct (BleakDriver._processing _ pc _) as [[pc' w'] inv].
      simpl. apply length_set_nth.
  - destruct (BleakDriver.can_notify s tid); reflexivity.
Qed.

Lemma enqueued_cons (a : BleakDriver.action) (tr : list BleakDriver.action)
    (s : BleakDriver.System) :
  enqueued (a :: tr) s = enqueued [a] s ++ enqueued tr (step a s).
Proof. simpl. now rewrite app_nil_r. Qed.

Lemma received_cons (a : BleakDriver.action) (tr : list BleakDriver.action)
    (s : BleakDriver.System) :
  received (a :: tr) s = received [a] s ++ received tr (step a s).
Proof. simpl. now rewrite app_nil_r. Qed.

(** The invariant holds along every run in which [enable_notifications]
    is called at most once, and not at all once the units are started. *)
Lemma run_inv (tr : list BleakDriver.action) :
  forall (s : BleakDriver.System) (enq : list (Z * pydata)) (rcv : list (Z * list byte)),
    sinv enq rcv s ->
    (BleakDriver.count_enable tr <= 1 - List.length (BleakDriver.threads s))%nat ->
    sinv (enq ++ enqueued tr s) (rcv ++ received tr s) (run tr s).
Proof.
  induction tr as [|a tr IH]; intros s enq rcv Hinv Hcount.
  - simpl. now rewrite !app_nil_r.
  - rewrite enqueued_cons, received_cons, !app_assoc.
    change (run (a :: tr) s) with (run tr (step a s)).
    apply IH.
    + apply step_inv; [exact Hinv|].
      intros ->. unfold BleakDriver.count_enable in Hcount. simpl in Hcount.
      destruct (BleakDriver.threads s); [reflexivity | simpl in Hcount; lia].
    + destruct a as [handler| |handle data| |tid|tid handle data];
        try (rewrite step_threads_length by discriminate; exact Hcount).
      assert (Hc : BleakDriver.count_enable (BleakDriver.EnableNotifications :: tr) =
                   S (BleakDriver.count_enable tr)) by reflexivity.
      assert (Hl : List.length (BleakDriver.threads (step BleakDriver.EnableNotifications s)) =
                   (List.length (BleakDriver.threads s) + 2)%nat)
        by (simpl; rewrite length_app; simpl; lia).
      lia.
Qed.

Lemma fresh_inv (hub_mac hub_name : option string)
    (scans : list (list Device)) (faults : list bool) :
  sinv [] [] (BleakDriver.fresh hub_mac hub_name scans faults).
Proof. left. repeat split. Qed.


(** What [write_inv] says about the keepalive. *)
Lemma write_inv_keepalive (enq : list (Z * pydata)) (pc : BleakDriver.conn_pc) (w : World) :
  winv enq pc w ->
  (before_loop_calls MOVE_HUB_HW_UUID_CHAR (calls w) /\
   (BleakDriver.thread_is_alive (BleakDriver.ConnectionThread pc) = true ->
    req_queue w = enq)) \/
  (exists sent rest,
     in_loop_calls MOVE_HUB_HW_UUID_CHAR env sent (calls w) /\ enq = sent ++ rest).
Proof.
  intros Hinv. destruct pc; simpl in *.
  - destruct Hinv as [Hc ->]. left. split; [|reflexivity].
    exists "", 0%nat. now rewrite Hc.
  - destruct Hinv as (_ & (addr & Hc) & ->). left. split; [|reflexivity].
    exists addr, 2%nat. now rewrite Hc.
  - destruct Hinv as (_ & (addr & Hc) & ->). left. split; [|reflexivity].
    exists addr, 3%nat. now rewrite Hc.
  - destruct Hinv as (_ & sent & Hc & ->). right. now exists sent, (req_queue w).
  - destruct Hinv as (_ & sent & Hc & ->). right. now exists sent, (req_queue w).
  - destruct Hinv as (_ & sent & Hc & ->). right. now exists sent, (req_queue w).
  - destruct Hinv as (_ & sent & Hc & ->). right. now exists sent, (req_queue w).
  - destruct Hinv as (_ & sent & Hc & ->). right. now exists sent, (data :: req_queue w).
  - destruct Hinv as [Hb | (sent & rest & Hc & ->)].
    + left. split; [exact Hb | discriminate].
    + right. now exists sent, rest.
  - destruct Hinv as [Hb | (sent & rest & Hc & ->)].
    + left. split; [exact Hb | discriminate].
    + right. now exists sent, rest.
Qed.


(** On a driver whose units were started once, the transport's trace is
    at every moment either an initial part of scan, connect, subscribe,
    and then nothing has been taken out of [req_queue] while the
    connection thread is alive; or it is scan, connect, subscribe, one
    write of [05 00 01 01 05] on [MOVE_HUB_HW_UUID_CHAR], and after it only
    writes that [write] had put into [req_queue]. *)
Lemma single_unit_trace :
  forall (hub_mac hub_name : option string) (scans : list (list Device))
         (faults : list bool) (tr : list BleakDriver.action),
    (BleakDriver.count_enable tr <= 1)%nat ->
    let s0 := BleakDriver.fresh hub_mac hub_name scans faults in
    let s := run tr s0 in
    ((exists addr k,
        calls (BleakDriver.world s) =
          firstn k [Discover 10; ClientConnect addr; StartNotify MOVE_HUB_HW_UUID_CHAR]) /\
     (BleakDriver.tid_is_alive s 0 = true ->
      req_queue (BleakDriver.world s) = enqueued tr s0)) \/
    (exists addr sent rest,
        calls (BleakDriver.world s) =
          [Discover 10; ClientConnect addr; StartNotify MOVE_HUB_HW_UUID_CHAR;
           WriteGattChar MOVE_HUB_HW_UUID_CHAR [x05; x00; x01; x01; x05]]
          ++ map (write_call MOVE_HUB_HW_UUID_CHAR (gatt_table env)) sent /\
        enqueued tr s0 = sent ++ rest).
Proof.
  intros hub_mac hub_name scans faults tr Hcount s0 s.
  pose proof (run_inv tr s0 [] [] (fresh_inv hub_mac hub_name scans faults)) as Hinv.
  simpl in Hinv. specialize (Hinv Hcount). fold s in Hinv.
  destruct Hinv as [(Hth & _ & Hc & Hq & He & _) | (cpc & ppc & Hth & _ & _ & Hw & _)].
  - left. split.
    + exists "", 0%nat. now rewrite Hc.
    + unfold BleakDriver.tid_is_alive. rewrite Hth. discriminate.
  - destruct (write_inv_keepalive _ _ _ Hw) as [[Hb Hq] | (sent & rest & [addr Hc] & He)].
    + left. split; [exact Hb|].
      unfold BleakDriver.tid_is_alive. rewrite Hth. exact Hq.
    + right. exists addr, sent, rest. split; [exact Hc | exact He].
Qed.

(** *** The processing thread empties [resp_queue] *)

Lemma run_app (tr1 tr2 : list BleakDriver.action) (s : BleakDriver.System) :
  run (tr1 ++ tr2) s = run tr2 (run tr1 s).
Proof. unfold BleakDriver.run. apply fold_left_app. Qed.

(** A step of the processing thread when it is the second of two threads. *)
Lemma proc_run (d : BleakDriver.t) (cth : BleakDriver.Thread) (pc : BleakDriver.proc_pc)
    (w : World) (hs : list (Z * list byte)) :
  step (BleakDriver.Run 1)
    (BleakDriver.mkSystem d [cth; BleakDriver.ProcessingThread pc] w hs) =
  BleakDriver.mkSystem d
    [cth; BleakDriver.ProcessingThread (fst (fst (BleakDriver._processing d pc w)))]
    (snd (fst (BleakDriver._processing d pc w)))
    (hs ++ snd (BleakDriver._processing d pc w)).
Proof.
  unfold BleakDriver.step. cbn [nth_error BleakDriver.threads BleakDriver.self
    BleakDriver.world BleakDriver.handled].
  destruct (BleakDriver._processing d pc w) as [[pc' w'] inv]. reflexivity.
Qed.

Section Drain.
Variable d : BleakDriver.t.
Variable handler : BleakDriver.Handler.
Variable cth : BleakDriver.Thread.
Hypothesis running : BleakDriver._abort d = false.
Hypothesis registered : BleakDriver._handler d = Some handler.
Hypothesis returns : forall handle data, handler handle data = Ok tt.

Local Abbreviation sys pc w hs :=
  (BleakDriver.mkSystem d [cth; BleakDriver.ProcessingThread pc] w hs).
Local Abbreviation turns n := (repeat (BleakDriver.Run 1) n).

(** From the head of the loop, with [q] queued: after enough steps of the
    processing thread the handler has received all of [q], in order. *)
Lemma drain_from_while (q : list (Z * list byte)) :
  forall w hs,
    resp_queue w = q ->
    exists n s',
      run (turns n) (sys BleakDriver.PWhile w hs) = s' /\
      BleakDriver.handled s' = hs ++ q /\
      resp_queue (BleakDriver.world s') = [].
Proof.
  induction q as [|msg q IH]; intros w hs Hq.
  - exists 0%nat, (sys BleakDriver.PWhile w hs). simpl.
    rewrite app_nil_r. auto.
  - destruct (IH (set_resp_queue q w) (hs ++ [msg]) eq_refl) as (n & s' & Hrun & Hh & Hr).
    exists (5 + n)%nat, s'. split; [|split; [|exact Hr]].
    + rewrite repeat_app, run_app. rewrite <- Hrun. f_equal.
      unfold BleakDriver.run. cbn [repeat fold_left].
      rewrite proc_run. cbn [BleakDriver._processing]. rewrite running. cbn [fst snd].
      rewrite proc_run. cbn [BleakDriver._processing]. rewrite Hq. cbn [fst snd List.length Nat.eqb negb].
      rewrite proc_run. cbn [BleakDriver._processing]. rewrite Hq. cbn [fst snd].
      rewrite proc_run. cbn [BleakDriver._processing]. rewrite registered, returns. cbn [fst snd].
      rewrite proc_run. cbn [BleakDriver._processing]. cbn [fst snd].
      rewrite !app_nil_r. reflexivity.
    + rewrite Hh, <- app_assoc. reflexivity.
Qed.

(** The same from any point of the loop at which the thread is alive. *)
Lemma drain_from (pc : BleakDriver.proc_pc) (w : World) (hs : list (Z * list byte)) :
  BleakDriver.thread_is_alive (BleakDriver.ProcessingThread pc) = true ->
  exists n s',
    run (turns n) (sys pc w hs) = s' /\
    BleakDriver.handled s' =
      hs ++ msg_in_flight (Some (BleakDriver.ProcessingThread pc)) ++ resp_queue w /\
    resp_queue (BleakDriver.world s') = [].
Proof.
  intros Halive. destruct pc as [| | |msg| | |e]; try discriminate; cbn [msg_in_flight].
  - destruct (drain_from_while (resp_queue w) w hs eq_refl) as (n & s' & Hrun & Hh & Hr).
    exists n, s'. auto.
  - destruct (resp_queue w) as [|m q] eqn:Hq.
    + exists 0%nat, (sys BleakDriver.PQsize w hs). simpl. rewrite app_nil_r. auto.
    + destruct (drain_from_while q (set_resp_queue q w) (hs ++ [m]) eq_refl)
        as (n & s' & Hrun & Hh & Hr).
      exists (4 + n)%nat, s'. split; [|split; [|exact Hr]].
      * rewrite repeat_app, run_app. rewrite <- Hrun. f_equal.
        unfold BleakDriver.run. cbn [repeat fold_left].
        rewrite proc_run. cbn [BleakDriver._processing]. rewrite Hq. cbn [fst snd List.length Nat.eqb negb].
        rewrite proc_run. cbn [BleakDriver._processing]. rewrite Hq. cbn [fst snd].
        rewrite proc_run. cbn [BleakDriver._processing]. rewrite registered, returns. cbn [fst snd].
        rewrite proc_run. cbn [BleakDriver._processing]. cbn [fst snd].
        rewrite !app_nil_r. reflexivity.
      * rewrite Hh, <- app_assoc. reflexivity.
  - destruct (resp_queue w) as [|m q] eqn:Hq.
    + exists 0%nat, (sys BleakDriver.PGet w hs). simpl. rewrite app_nil_r. auto.
    + destruct (drain_from_while q (set_resp_queue q w) (hs ++ [m]) eq_refl)
        as (n & s' & Hrun & Hh & Hr).
      exists (3 + n)%nat, s'. split; [|split; [|exact Hr]].
      * rewrite repeat_app, run_app. rewrite <- Hrun. f_equal.
        unfold BleakDriver.run. cbn [repeat fold_left].
        rewrite proc_run. cbn [BleakDriver._processing]. rewrite Hq. cbn [fst snd].
        rewrite proc_run. cbn [BleakDriver._processing]. rewrite registered, returns. cbn [fst snd].
        rewrite proc_run. cbn [BleakDriver._processing]. cbn [fst snd].
        rewrite !app_nil_r. reflexivity.
      * rewrite Hh, <- app_assoc. reflexivity.
  - destruct (drain_from_while (resp_queue w) w (hs ++ [msg]) eq_refl)
      as (n & s' & Hrun & Hh & Hr).
    exists (2 + n)%nat, s'. split; [|split; [|exact Hr]].
    + rewrite repeat_app, run_app. rewrite <- Hrun. f_equal.
      unfold BleakDriver.run. cbn [repeat fold_left].
      rewrite proc_run. cbn [BleakDriver._processing]. rewrite registered, returns. cbn [fst snd].
      rewrite proc_run. cbn [BleakDriver._processing]. cbn [fst snd].
      rewrite !app_nil_r. reflexivity.
    + rewrite Hh, <- app_assoc. reflexivity.
  - destruct (drain_from_while (resp_queue w) w hs eq_refl) as (n & s' & Hrun & Hh & Hr).
    exists (1 + n)%nat, s'. split; [|split; [|exact Hr]].
    + rewrite repeat_app, run_app. rewrite <- Hrun. f_equal.
      unfold BleakDriver.run. cbn [repeat fold_left].
      rewrite proc_run. cbn [BleakDriver._processing]. cbn [fst snd].
      rewrite !app_nil_r. reflexivity.
    + exact Hh.
Qed.
End Drain.


End DriverProperties.

(** * The scenarios, evaluated *)

(** C1, where the claim fails: in the scenario of the specification the
    first scan sees another device and the second would see the hub.  The
    driver's connection thread never asks the transport to connect.  Under
    a base class without a constructor of its own, [BleakConnection()]
    raises a [TypeError] on [super().__init__(self)] and the thread ends
    before any scan; under a base class whose constructor takes the
    argument, [BleakConnection.connect] scans once, and the thread ends
    with ['Device not found.'] after that one scan. *)
Lemma C1_single_scan_counterexample :
  let s0 := BleakDriver.fresh hub_target None late_hub [] in
  let s := plain_run started_once s0 in
  let t := lego_run started_once s0 in
  nth_error (BleakDriver.threads s) 0 =
    Some (BleakDriver.ConnectionThread (BleakDriver.CRaised no_extra_argument)) /\
  calls (BleakDriver.world s) = [] /\
  nth_error (BleakDriver.threads t) 0 =
    Some (BleakDriver.ConnectionThread
            (BleakDriver.CRaised (ConnectionError "Device not found."))) /\
  calls (BleakDriver.world t) = [Discover 10] /\
  ~ In (ClientConnect "AA:BB:CC:DD:EE:FF") (calls (BleakDriver.world s)) /\
  ~ In (ClientConnect "AA:BB:CC:DD:EE:FF") (calls (BleakDriver.world t)).
Proof.
  vm_compute. repeat split.
  - intros [].
  - intros [H|[]]. discriminate.
Qed.

Lemma C1_connect_scans_witness :
  let r2 := BleakConnection2.connect LEGO_CHAR matches quiet_env hub_target None
              (BleakConnection2.blank, two_scans) in
  calls (snd (snd r2)) =
    [Discover 1; Discover 1; ClientConnect "AA:BB:CC:DD:EE:FF"; StartNotify LEGO_CHAR] /\
  fst r2 = Ok tt.
Proof.
  destruct (C1_connect_scans LEGO_CHAR matches quiet_env hub_target None two_scans
              BleakConnection.blank BleakConnection2.blank) as [Hlater _].
  destruct (Hlater [[other_device]] [] [] hub_device []) as [Hcalls Hok].
  - reflexivity.
  - simpl. lia.
  - repeat constructor.
  - constructor.
  - reflexivity.
  - split; [exact Hcalls | apply Hok; reflexivity].
Defined.

Lemma C2_write_not_running_witness :
  let s := lego_run shutdown (BleakDriver.fresh hub_target None hub_in_sight []) in
  BleakDriver.is_alive s = false /\
  BleakDriver.write 14 (PySeq BleakDriver.keepalive) s =
    (Raise BleakDriver.not_functioning, s).
Proof.
  split; [reflexivity|].
  apply (proj2 (C2_write_not_running 14 (PySeq BleakDriver.keepalive)) _ 0%nat 1%nat);
    reflexivity.
Defined.



Lemma C5_write_default_characteristic_witness :
  calls (snd (snd (BleakConnection.write LEGO_CHAR 14 (PySeq [x05; x00; x01; x01; x05])
                     (hub_conn, BleakDriver.fresh_world [] [])))) =
    [WriteGattChar LEGO_CHAR [x05; x00; x01; x01; x05]] /\
  calls (snd (snd (BleakConnection2.write LEGO_CHAR 14 (PySeq [x05; x00; x01; x01; x05])
                     (hub_conn2, BleakDriver.fresh_world [] [])))) =
    [WriteGattChar LEGO_CHAR [x05; x00; x01; x01; x05]].
Proof.
  apply (proj1 (C5_write_default_characteristic LEGO_CHAR 14
                  (PySeq [x05; x00; x01; x01; x05]) hub_client
                  (BleakDriver.fresh_world [] []) hub_conn hub_conn2 eq_refl eq_refl)).
  reflexivity.
Defined.

Lemma C6_first_match_wins_witness :
  let w := BleakDriver.fresh_world [[other_device; hub_device; other_device; hub_device]] [] in
  let r := BleakConnection.connect matches quiet_env hub_target None
             (BleakConnection.blank, w) in
  BleakConnection._device (fst (snd r)) = Some hub_device /\
  calls (snd (snd r)) = [Discover 10; ClientConnect "AA:BB:CC:DD:EE:FF"] /\
  examined (log (snd (snd r))) = [other_device; hub_device].
Proof.
  refine (proj1 (C6_first_match_wins LEGO_CHAR matches quiet_env hub_target None
           (BleakDriver.fresh_world [[other_device; hub_device; other_device; hub_device]] [])
           [other_device] [other_device; hub_device] hub_device
           BleakConnection.blank BleakConnection2.blank _ _) [] eq_refl).
  - repeat constructor.
  - reflexivity.
Defined.



(** C8, where the claim fails: on a radio whose [disconnect] raises,
    [BleakConnection2.disconnect] raises that error to its caller and logs
    nothing about it; and [BleakDriver.disconnect] never asks the
    transport to close the link: after the shutdown both threads have
    left, and the transport has seen the keepalive as its last call.
    Under a base class without a constructor of its own the connection
    thread has left earlier and the transport has seen no call at all. *)
Lemma C8_disconnect_counterexample :
  let r := BleakConnection2.disconnect stuck_env
             (hub_conn2, BleakDriver.fresh_world [] []) in
  let s := lego_run shutdown (BleakDriver.fresh hub_target None hub_in_sight []) in
  let t := plain_run shutdown (BleakDriver.fresh hub_target None hub_in_sight []) in
  fst r = Raise (BleakError "disconnect") /\
  log (snd (snd r)) = [DebugCheckingAlive; DebugDisconnecting] /\
  BleakDriver.is_alive s = false /\
  calls (BleakDriver.world s) =
    [Discover 10; ClientConnect "AA:BB:CC:DD:EE:FF"; StartNotify LEGO_CHAR;
     WriteGattChar LEGO_CHAR [x05; x00; x01; x01; x05]] /\
  ~ In (ClientDisconnect "AA:BB:CC:DD:EE:FF") (calls (BleakDriver.world s)) /\
  BleakDriver.is_alive t = false /\
  calls (BleakDriver.world t) = [].
Proof.
  vm_compute. repeat split. intros [H|[H|[H|[H|[]]]]]; discriminate.
Qed.

Lemma C8_disconnect_as_written_witness :
  let r := BleakConnection2.disconnect stuck_env
             (hub_conn2, BleakDriver.fresh_world [] []) in
  calls (snd (snd r)) = [ClientDisconnect "AA:BB:CC:DD:EE:FF"] /\
  log (snd (snd r)) = [DebugCheckingAlive; DebugDisconnecting] /\
  fst r = Raise (BleakError "disconnect").
Proof.
  apply (proj2 (proj2 (C8_disconnect_as_written LEGO_CHAR matches stuck_env))
           hub_conn2 hub_client (BleakDriver.fresh_world [] []) eq_refl).
  reflexivity.
Defined.

(** C9, where the claim fails: after two calls of [enable_notifications]
    two connection threads and two processing threads are alive. *)
Lemma C9_duplicate_units_counterexample :
  let s := lego_run [BleakDriver.EnableNotifications; BleakDriver.EnableNotifications]
             (BleakDriver.fresh hub_target None hub_in_sight []) in
  count_threads alive_connection_thread s = 2%nat /\
  count_threads alive_processing_thread s = 2%nat /\
  ~ (count_threads alive_connection_thread s <= 1)%nat.
Proof.
  vm_compute. repeat split. lia.
Qed.

(** * Further properties of the connection objects *)

Section MoreConnectProperties.
Variable MOVE_HUB_HW_UUID_CHAR : string.
Variable _is_device_matched :
  string -> option string -> option string -> option string -> bool.
Variable env : Env.
Variables hub_mac hub_name : option string.

Local Abbreviation hit dev := (_is_device_matched (address dev) (name dev) hub_mac hub_name).
Local Abbreviation miss := (no_match _is_device_matched hub_mac hub_name).
Local Abbreviation connect2 :=
  (BleakConnection2.connect MOVE_HUB_HW_UUID_CHAR _is_device_matched env hub_mac hub_name).

(** The outer loop of [BleakConnection2.connect], whatever the radio sees:
    it makes [k] scans, [k] at most the bound, all of them when it finds
    nothing and at least one when it leaves with a device, which the
    matcher accepts. *)
Lemma for_i_total (n : nat) :
  forall w,
    exists k found w',
      BleakConnection2.for_i _is_device_matched hub_mac hub_name n w = (Ok found, w') /\
      calls w' = calls w ++ repeat (Discover 1) k /\
      (k <= n)%nat /\
      match found with
      | None => k = n
      | Some dev => (1 <= k)%nat /\ hit dev = true
      end.
Proof.
  induction n as [|n IH]; intros w.
  - exists 0%nat, None, w. simpl. unfold ret. rewrite app_nil_r. auto.
  - simpl. unfold bind at 1. unfold discover at 1.
    unfold bind at 1. unfold log_write at 1. unfold bind at 1.
    destruct (scan_split _is_device_matched hub_mac hub_name (hd [] (scans w)))
      as [Hmiss | (before & dev & after & Hscan & Hb & Hd)].
    + rewrite (for_dev2_miss _is_device_matched hub_mac hub_name _ Hmiss).
      match goal with |- context [BleakConnection2.for_i _ _ _ n ?w1] =>
        destruct (IH w1) as (k & found & w' & Hrun & Hcalls & Hk & Hfound) end.
      exists (S k), found, w'. split; [exact Hrun|]. split; [|split; [lia|]].
      * rewrite Hcalls. simpl. now rewrite <- app_assoc.
      * destruct found; [split; [lia | tauto] | lia].
    + rewrite Hscan.
      rewrite (for_dev2_hit _is_device_matched hub_mac hub_name before after dev Hb Hd).
      eexists 1%nat, (Some dev), _. split; [reflexivity|].
      split; [reflexivity|]. split; [lia|]. split; [lia | exact Hd].
Qed.

(** X1: whatever the scans return, [BleakConnection2.connect] makes between
    one and thirty scans, each of one second, and nothing before them;
    either all thirty and then it raises ['Device not found.'] without a
    request to connect, or it stops at the first scan with a device the
    matcher accepts and asks the transport once to connect to it. *)
Theorem X1_connect2_scan_bounds :
  forall (w : World) (conn2 : BleakConnection2.t),
    let r := connect2 (conn2, w) in
    exists k,
      (1 <= k <= 30)%nat /\
      ((fst r = Raise (ConnectionError "Device not found.") /\ k = 30%nat /\
        fst (snd r) = conn2 /\
        calls (snd (snd r)) = calls w ++ repeat (Discover 1) k) \/
       (exists dev,
          hit dev = true /\
          calls (snd (snd r)) =
            calls w ++ repeat (Discover 1) k
                    ++ connect_calls env MOVE_HUB_HW_UUID_CHAR dev)).
Proof.
  intros w conn2 r.
  destruct (for_i_total 30 (set_log (log w ++ [InfoDiscovering]) w))
    as (k & found & w1 & Hrun & Hcalls & Hk & Hfound).
  destruct found as [dev|].
  - destruct Hfound as [Hk1 Hd].
    destruct (connect2_after_hit MOVE_HUB_HW_UUID_CHAR _is_device_matched env
                hub_mac hub_name conn2 w w1 dev Hrun) as (H1 & _ & _).
    exists k. split; [lia|]. right. exists dev. split; [exact Hd|].
    subst r. rewrite H1, Hcalls. simpl calls. now rewrite <- app_assoc.
  - subst k. exists 30%nat. split; [lia|]. left.
    subst r. rewrite (connect2_after_miss MOVE_HUB_HW_UUID_CHAR _is_device_matched env
                        hub_mac hub_name conn2 w w1 Hrun).
    repeat split. exact Hcalls.
Qed.

(** The object that [BleakConnection2.connect] leaves once its loop has
    found a device: its flag is untouched and its client is the one built
    for that device, connected unless the transport refused. *)
Lemma connect2_self (self : BleakConnection2.t) (w w1 : World) (dev : Device) :
  BleakConnection2.for_i _is_device_matched hub_mac hub_name 30
    (set_log (log w ++ [InfoDiscovering]) w) = (Ok (Some dev), w1) ->
  let r := connect2 (self, w) in
  BleakConnection2._abort (fst (snd r)) = BleakConnection2._abort self /\
  BleakConnection2._notify_queue (fst (snd r)) = BleakConnection2._notify_queue self /\
  BleakConnection2._client (fst (snd r)) =
    Some (if connect_fails env (address dev)
          then BleakClient_new (address dev)
          else mkClient (address dev) true (gatt_table env)) /\
  (connect_fails env (address dev) = true -> fst r = Raise (BleakError "connect")) /\
  (connect_fails env (address dev) = false -> fst r <> Raise (BleakError "connect")).
Proof.
  intros Hrun r. subst r.
  unfold BleakConnection2.connect.
  unfold bind, inW, log_write. cbn -[BleakConnection2.for_i]. rewrite Hrun.
  unfold bind, inW, setSelf, getSelf, BleakConnection2.client_attr, client_connect,
    client_start_notify, record_call, log_write, raise, ret; simpl.
  destruct (connect_fails env (address dev)); simpl.
  - repeat split; congruence.
  - destruct (start_notify_fails env); simpl; repeat split; congruence.
Qed.

Lemma is_alive2_eq (c : BleakConnection2.t) (cl : BleakClient) (w : World) :
  BleakConnection2._client c = Some cl ->
  BleakConnection2.is_alive (c, w) =
  (Ok (is_connected cl), (c, set_log (log w ++ [DebugCheckingAlive]) w)).
Proof.
  intros Hcl.
  unfold BleakConnection2.is_alive, BleakConnection2.client_attr, bind, inW, getSelf,
    log_write, ret; simpl.
  now rewrite Hcl.
Qed.

(** [BleakConnection2.disconnect] on a connected client, on a radio that
    closes the link. *)
Lemma disconnect2_connected (c : BleakConnection2.t) (cl : BleakClient) (w : World) :
  BleakConnection2._client c = Some cl ->
  is_connected cl = true ->
  disconnect_fails env = false ->
  let d := BleakConnection2.disconnect env (c, w) in
  fst d = Ok tt /\
  BleakConnection2._abort (fst (snd d)) = true /\
  BleakConnection2._client (fst (snd d)) =
    Some (mkClient (cl_address cl) false (services cl)) /\
  calls (snd (snd d)) = calls w ++ [ClientDisconnect (cl_address cl)].
Proof.
  intros Hcl Hconn Hok d. subst d.
  unfold BleakConnection2.disconnect, BleakConnection2.is_alive,
    BleakConnection2.client_attr, client_disconnect, record_call,
    bind, inW, setSelf, getSelf, log_write, raise, ret.
  simpl. rewrite Hcl. simpl. rewrite Hconn. simpl. rewrite Hcl. simpl.
  rewrite Hok. simpl. auto.
Qed.

(** [BleakConnection2.disconnect] on a client that is not connected. *)
Lemma disconnect2_unconnected (c : BleakConnection2.t) (cl : BleakClient) (w : World) :
  BleakConnection2._client c = Some cl ->
  is_connected cl = false ->
  let d := BleakConnection2.disconnect env (c, w) in
  fst d = Ok tt /\
  BleakConnection2._abort (fst (snd d)) = true /\
  BleakConnection2._client (fst (snd d)) = Some cl /\
  calls (snd (snd d)) = calls w.
Proof.
  intros Hcl Hconn d. subst d.
  unfold BleakConnection2.disconnect, BleakConnection2.is_alive,
    BleakConnection2.client_attr, bind, inW, setSelf, getSelf, log_write, raise, ret.
  simpl. rewrite Hcl. simpl. rewrite Hconn. simpl. auto.
Qed.

(** X2: a [BleakConnection2] whose [connect] returned is alive; on a radio
    that closes the link, [disconnect] then returns after one request to
    the transport, for the address the object connected to, after which
    the object is no longer alive and a second [disconnect] returns
    without a further transport call. *)
Theorem X2_connect2_disconnect_round_trip :
  forall (w : World) (conn2 : BleakConnection2.t),
    let r := connect2 (conn2, w) in
    fst r = Ok tt ->
    disconnect_fails env = false ->
    let d1 := BleakConnection2.disconnect env (snd r) in
    let d2 := BleakConnection2.disconnect env (snd d1) in
    fst (BleakConnection2.is_alive (snd r)) = Ok true /\
    fst d1 = Ok tt /\
    (exists addr,
        In (ClientConnect addr) (calls (snd (snd r))) /\
        calls (snd (snd d1)) = calls (snd (snd r)) ++ [ClientDisconnect addr]) /\
    fst (BleakConnection2.is_alive (snd d1)) = Ok false /\
    fst d2 = Ok tt /\
    calls (snd (snd d2)) = calls (snd (snd d1)).
Proof.
  intros w conn2 r Hok Hdisc d1 d2.
  destruct (for_i_total 30 (set_log (log w ++ [InfoDiscovering]) w))
    as (k & found & w1 & Hrun & _ & _ & _).
  destruct found as [dev|].
  2:{ subst r. rewrite (connect2_after_miss MOVE_HUB_HW_UUID_CHAR _is_device_matched env
                          hub_mac hub_name conn2 w w1 Hrun) in Hok. discriminate. }
  destruct (connect2_self conn2 w w1 dev Hrun) as (_ & _ & Hcl & Hfail & _).
  destruct (connect2_after_hit MOVE_HUB_HW_UUID_CHAR _is_device_matched env
              hub_mac hub_name conn2 w w1 dev Hrun) as (Hcalls & _ & _).
  fold r in Hcl, Hfail, Hcalls.
  destruct (connect_fails env (address dev)) eqn:Hcf.
  { rewrite Hfail in Hok by reflexivity. discriminate. }
  subst d2 d1. destruct r as [res [c w']]. cbn [fst snd] in *.
  set (cl := mkClient (address dev) true (gatt_table env)) in *.
  destruct (disconnect2_connected c cl w' Hcl eq_refl Hdisc) as (D1 & D2 & D3 & D4).
  destruct (BleakConnection2.disconnect env (c, w')) as [res1 [c1 w1']].
  cbn [fst snd] in *.
  set (cl1 := mkClient (cl_address cl) false (services cl)) in *.
  destruct (disconnect2_unconnected c1 cl1 w1' D3 eq_refl) as (E1 & _ & _ & E4).
  rewrite (is_alive2_eq c cl w' Hcl), (is_alive2_eq c1 cl1 w1' D3).
  split; [reflexivity|]. split; [exact D1|]. split.
  - exists (address dev). split; [|exact D4].
    rewrite Hcalls. unfold connect_calls. rewrite Hcf.
    apply in_or_app. right. left. reflexivity.
  - split; [reflexivity|]. split; [exact E1 | exact E4].
Qed.

(** X3: when [BleakConnection2.connect] ends with the transport's refusal
    to connect, the request to connect is the last thing the transport
    was asked, so no subscription was made, and the object is left with a
    client that is not connected: [is_alive] then answers [False] and
    [disconnect] returns without a transport call. *)
Theorem X3_connect2_refused :
  forall (w : World) (conn2 : BleakConnection2.t),
    let r := connect2 (conn2, w) in
    fst r = Raise (BleakError "connect") ->
    let d := BleakConnection2.disconnect env (snd r) in
    (exists addr before,
        calls (snd (snd r)) = before ++ [ClientConnect addr] /\
        BleakConnection2._client (fst (snd r)) = Some (BleakClient_new addr)) /\
    fst (BleakConnection2.is_alive (snd r)) = Ok false /\
    fst d = Ok tt /\
    calls (snd (snd d)) = calls (snd (snd r)).
Proof.
  intros w conn2 r Hres d.
  destruct (for_i_total 30 (set_log (log w ++ [InfoDiscovering]) w))
    as (k & found & w1 & Hrun & _ & _ & _).
  destruct found as [dev|].
  2:{ subst r. rewrite (connect2_after_miss MOVE_HUB_HW_UUID_CHAR _is_device_matched env
                          hub_mac hub_name conn2 w w1 Hrun) in Hres. discriminate. }
  destruct (connect2_self conn2 w w1 dev Hrun) as (_ & _ & Hcl & _ & Hnot).
  destruct (connect2_after_hit MOVE_HUB_HW_UUID_CHAR _is_device_matched env
              hub_mac hub_name conn2 w w1 dev Hrun) as (Hcalls & _ & _).
  fold r in Hcl, Hnot, Hcalls.
  destruct (connect_fails env (address dev)) eqn:Hcf.
  2:{ exfalso. apply Hnot; [reflexivity | exact Hres]. }
  subst d. destruct r as [res [c w']]. cbn [fst snd] in *.
  destruct (disconnect2_unconnected c (BleakClient_new (address dev)) w' Hcl eq_refl)
    as (E1 & _ & _ & E4).
  rewrite (is_alive2_eq c _ w' Hcl).
  split; [|auto].
  exists (address dev), (calls w1). split; [|exact Hcl].
  rewrite Hcalls. unfold connect_calls. now rewrite Hcf.
Qed.

(** X4: the methods that reach for [self._client] raise an
    [AttributeError] on an object whose [connect] has not bound a client,
    and the transport sees nothing of the call: [is_alive], [disconnect]
    and [write] of [BleakConnection2], where [disconnect] has set the
    shutdown flag before it raises, and [write], [write_char] and
    [set_notify_handler] of [BleakConnection]. *)
Theorem X4_methods_before_connect :
  forall (w : World) (conn : BleakConnection.t) (conn2 : BleakConnection2.t)
         (handle : Z) (data : pydata) (uuid : string) (payload : list byte),
    BleakConnection._client conn = None ->
    BleakConnection2._client conn2 = None ->
    attribute_error_only w (BleakConnection2.is_alive (conn2, w)) /\
    attribute_error_only w (BleakConnection2.disconnect env (conn2, w)) /\
    BleakConnection2._abort
      (fst (snd (BleakConnection2.disconnect env (conn2, w)))) = true /\
    attribute_error_only w
      (BleakConnection2.write MOVE_HUB_HW_UUID_CHAR handle data (conn2, w)) /\
    attribute_error_only w
      (BleakConnection.write MOVE_HUB_HW_UUID_CHAR handle data (conn, w)) /\
    attribute_error_only w (BleakConnection.write_char uuid payload (conn, w)) /\
    attribute_error_only w
      (BleakConnection.set_notify_handler MOVE_HUB_HW_UUID_CHAR env (conn, w)).
Proof.
  intros w conn conn2 handle data uuid payload Hc Hc2.
  unfold attribute_error_only.
  unfold BleakConnection2.is_alive, BleakConnection2.disconnect, BleakConnection2.write,
    BleakConnection.write, BleakConnection.write_char, BleakConnection.set_notify_handler,
    BleakConnection2.is_alive, BleakConnection2.client_attr, BleakConnection.client_attr,
    bind, inW, setSelf, getSelf, log_write, raise, ret.
  simpl. rewrite Hc, Hc2. simpl.
  repeat split; eexists; reflexivity.
Qed.
End MoreConnectProperties.

(** * Further properties of the driver *)

Section MoreDriverProperties.
Variable MOVE_HUB_HW_UUID_CHAR : string.
Variable _is_device_matched :
  string -> option string -> option string -> option string -> bool.
Variable env : Env.

Local Abbreviation step := (BleakDriver.step MOVE_HUB_HW_UUID_CHAR _is_device_matched env).
Local Abbreviation run := (BleakDriver.run MOVE_HUB_HW_UUID_CHAR _is_device_matched env).
Local Abbreviation bleak_thread :=
  (BleakDriver._bleak_thread MOVE_HUB_HW_UUID_CHAR _is_device_matched env).

(** X5: [write] accepts a write exactly when [is_alive] answers [True];
    an accepted write is put at the end of [req_queue] and nothing else
    changes, and a refused one changes nothing at all. *)
Theorem X5_write_accepts_iff_alive :
  forall (s : BleakDriver.System) (handle : Z) (data : pydata),
    let r := BleakDriver.write handle data s in
    (fst r = Ok tt <-> BleakDriver.is_alive s = true) /\
    (fst r = Ok tt ->
     snd r = BleakDriver.set_world
               (set_req_queue (req_queue (BleakDriver.world s) ++ [(handle, data)])
                  (BleakDriver.world s)) s) /\
    (fst r <> Ok tt -> snd r = s).
Proof.
  intros s handle data r. subst r.
  unfold BleakDriver.write, BleakDriver.is_alive.
  destruct (BleakDriver._connection_thread (BleakDriver.self s)) as [ct|];
    [|simpl; repeat split; try discriminate; auto].
  destruct (BleakDriver.tid_is_alive s ct); simpl;
    [|destruct (BleakDriver._processing_thread (BleakDriver.self s));
      simpl; repeat split; try discriminate; auto].
  destruct (BleakDriver._processing_thread (BleakDriver.self s)) as [pt|];
    [|simpl; repeat split; try discriminate; auto].
  destruct (BleakDriver.tid_is_alive s pt); simpl;
    repeat split; try discriminate; auto.
  intros H. now elim H.
Qed.

(** A step of [_bleak_thread] never touches [resp_queue]. *)
Lemma bleak_thread_resp_queue (d : BleakDriver.t) (pc : BleakDriver.conn_pc) (w : World) :
  resp_queue (snd (bleak_thread d pc w)) = resp_queue w.
Proof.
  destruct pc as [|bleak|bleak|bleak|bleak|bleak|bleak|bleak data| |e];
    unfold BleakDriver._bleak_thread.
  - destruct (BleakConnection.__init__ env) as [b0|e0]; [|reflexivity].
    pose proof (connect_outcome _is_device_matched env
                  (BleakDriver.hub_mac d) (BleakDriver.hub_name d)
                  b0 w) as Hout.
    cbv zeta in Hout. destruct Hout as (_ & Hr & _).
    destruct (BleakConnection.connect _ _ _ _ _) as [[a|e] [b w']]; exact Hr.
  - unfold BleakConnection.set_notify_handler, BleakConnection.client_attr,
      client_start_notify, record_call, bind, inW, getSelf, raise, ret.
    simpl. destruct (BleakConnection._client bleak); simpl; [|reflexivity].
    destruct (start_notify_fails env); reflexivity.
  - unfold BleakConnection.write_char, BleakConnection.client_attr,
      write_gatt_char, bind, inW, getSelf, raise, ret.
    simpl. destruct (BleakConnection._client bleak); simpl; [|reflexivity].
    destruct (hd false (write_faults w)); reflexivity.
  - destruct (BleakDriver._abort d); reflexivity.
  - reflexivity.
  - destruct (negb _); reflexivity.
  - destruct (req_queue w); reflexivity.
  - unfold BleakConnection.write, BleakConnection.client_attr,
      write_gatt_char, bind, inW, getSelf, log_write, raise, ret.
    simpl. destruct (BleakConnection._client bleak) as [cl|]; simpl; [|reflexivity].
    destruct (services cl (fst data)); destruct (snd data); simpl;
      destruct (hd false (write_faults w)); reflexivity.
  - reflexivity.
  - reflexivity.
Qed.

(** X6: the transport belongs to the connection thread.  Any other
    action, be it a call of the API, a step of a processing thread or a
    notification, leaves the transport's trace and script as they were and
    takes nothing out of [req_queue]; and a step of a connection thread
    leaves [resp_queue] and the calls received by the handler as they
    were. *)
Theorem X6_transport_owned_by_connection_thread :
  forall (s : BleakDriver.System) (a : BleakDriver.action),
    let s' := step a s in
    (connection_step s a = false ->
     calls (BleakDriver.world s') = calls (BleakDriver.world s) /\
     scans (BleakDriver.world s') = scans (BleakDriver.world s) /\
     write_faults (BleakDriver.world s') = write_faults (BleakDriver.world s) /\
     exists more,
       req_queue (BleakDriver.world s') = req_queue (BleakDriver.world s) ++ more) /\
    (connection_step s a = true ->
     resp_queue (BleakDriver.world s') = resp_queue (BleakDriver.world s) /\
     BleakDriver.handled s' = BleakDriver.handled s).
Proof.
  intros s a s'. subst s'. split.
  - intros Hother.
    destruct a as [handler| |handle data| |tid|tid handle data]; simpl in *.
    + repeat split. exists []. now rewrite app_nil_r.
    + repeat split. exists []. now rewrite app_nil_r.
    + unfold BleakDriver.write.
      destruct (BleakDriver._connection_thread _);
        [|repeat split; exists []; now rewrite app_nil_r].
      destruct (negb _); [repeat split; exists []; now rewrite app_nil_r|].
      destruct (BleakDriver._processing_thread _);
        [|repeat split; exists []; now rewrite app_nil_r].
      destruct (negb _); [repeat split; exists []; now rewrite app_nil_r|].
      simpl. repeat split. now exists [(handle, data)].
    + repeat split. exists []. now rewrite app_nil_r.
    + destruct (nth_error (BleakDriver.threads s) tid) as [[pc|pc]|];
        [discriminate| |repeat split; exists []; now rewrite app_nil_r].
      destruct pc as [| | |msg| | |e]; simpl.
      * destruct (BleakDriver._abort _); simpl; repeat split;
          exists []; now rewrite app_nil_r.
      * destruct (negb _); simpl; repeat split; exists []; now rewrite app_nil_r.
      * destruct (resp_queue _); simpl; repeat split; exists []; now rewrite app_nil_r.
      * destruct (BleakDriver._handler _) as [h|]; simpl;
          [destruct (h _ _); simpl|]; repeat split; exists []; now rewrite app_nil_r.
      * repeat split. exists []. now rewrite app_nil_r.
      * repeat split. exists []. now rewrite app_nil_r.
      * repeat split. exists []. now rewrite app_nil_r.
    + destruct (BleakDriver.can_notify s tid); simpl; repeat split;
        exists []; now rewrite app_nil_r.
  - intros Hconn.
    destruct a as [handler| |handle data| |tid|tid handle data]; simpl in *;
      try discriminate.
    destruct (nth_error (BleakDriver.threads s) tid) as [[pc|pc]|]; try discriminate.
    pose proof (bleak_thread_resp_queue (BleakDriver.self s) pc (BleakDriver.world s)) as Hr.
    destruct (BleakDriver._bleak_thread _ _ _ _ pc _) as [pc' w'].
    simpl in *. auto.
Qed.

Lemma is_alive_dead_connection (s : BleakDriver.System) (tid : nat) :
  BleakDriver._connection_thread (BleakDriver.self s) = Some tid ->
  BleakDriver.tid_is_alive s tid = false ->
  BleakDriver.is_alive s = false.
Proof.
  intros Hf Hd. unfold BleakDriver.is_alive. rewrite Hf.
  destruct (BleakDriver._processing_thread _); [|reflexivity].
  now rewrite Hd.
Qed.

Lemma is_alive_dead_processing (s : BleakDriver.System) (tid : nat) :
  BleakDriver._processing_thread (BleakDriver.self s) = Some tid ->
  BleakDriver.tid_is_alive s tid = false ->
  BleakDriver.is_alive s = false.
Proof.
  intros Hf Hd. unfold BleakDriver.is_alive. rewrite Hf.
  destruct (BleakDriver._connection_thread _); [|reflexivity].
  rewrite Hd. apply andb_false_r.
Qed.

(** A step of [_bleak_thread] that ends in an exception has taken nothing
    out of [req_queue]. *)
Lemma bleak_thread_raised (d : BleakDriver.t) (pc : BleakDriver.conn_pc) (w : World)
    (e : exn) :
  fst (bleak_thread d pc w) = BleakDriver.CRaised e ->
  req_queue (snd (bleak_thread d pc w)) = req_queue w.
Proof.
  destruct pc as [|bleak|bleak|bleak|bleak|bleak|bleak|bleak data| |e'];
    unfold BleakDriver._bleak_thread.
  - destruct (BleakConnection.__init__ env) as [b0|e0]; [|reflexivity].
    pose proof (connect_outcome _is_device_matched env
                  (BleakDriver.hub_mac d) (BleakDriver.hub_name d)
                  b0 w) as Hout.
    cbv zeta in Hout. destruct Hout as (Hq & _ & _).
    destruct (BleakConnection.connect _ _ _ _ _) as [[a|e1] [b w']]; intros _; exact Hq.
  - unfold BleakConnection.set_notify_handler, BleakConnection.client_attr,
      client_start_notify, record_call, bind, inW, getSelf, raise, ret.
    simpl. destruct (BleakConnection._client bleak); simpl; [|reflexivity].
    destruct (start_notify_fails env); reflexivity.
  - unfold BleakConnection.write_char, BleakConnection.client_attr,
      write_gatt_char, bind, inW, getSelf, raise, ret.
    simpl. destruct (BleakConnection._client bleak); simpl; [|reflexivity].
    destruct (hd false (write_faults w)); reflexivity.
  - destruct (BleakDriver._abort d); reflexivity.
  - reflexivity.
  - destruct (negb _); reflexivity.
  - destruct (req_queue w); discriminate.
  - unfold BleakConnection.write, BleakConnection.client_attr,
      write_gatt_char, bind, inW, getSelf, log_write, raise, ret.
    simpl. destruct (BleakConnection._client bleak) as [cl|]; simpl; [|reflexivity].
    destruct (services cl (fst data)); destruct (snd data); simpl;
      destruct (hd false (write_faults w)); reflexivity.
  - reflexivity.
  - reflexivity.
Qed.

Lemma set_nth_same {A} (l : list A) :
  forall n x, nth_error l n = Some x -> BleakDriver.set_nth n x l = l.
Proof.
  induction l as [|a l IH]; intros [|n] x H; simpl in *; try discriminate.
  - now inversion H.
  - f_equal. now apply IH.
Qed.

(** A connection thread that has ended takes no further step. *)
Lemma ended_connection_thread (s : BleakDriver.System) (tid : nat) (e : exn) :
  nth_error (BleakDriver.threads s) tid =
    Some (BleakDriver.ConnectionThread (BleakDriver.CRaised e)) ->
  step (BleakDriver.Run tid) s = s.
Proof.
  intros Hnth. unfold BleakDriver.step. rewrite Hnth. simpl.
  destruct s as [d ths w hs]. unfold BleakDriver.set_world, BleakDriver.set_threads.
  simpl in *. f_equal. now apply set_nth_same.
Qed.

(** A step of connection thread [tid], written out. *)
Lemma connection_thread_step (s : BleakDriver.System) (tid : nat) (pc : BleakDriver.conn_pc) :
  nth_error (BleakDriver.threads s) tid = Some (BleakDriver.ConnectionThread pc) ->
  step (BleakDriver.Run tid) s =
  BleakDriver.set_world (snd (bleak_thread (BleakDriver.self s) pc (BleakDriver.world s)))
    (BleakDriver.set_threads
       (BleakDriver.set_nth tid
          (BleakDriver.ConnectionThread
             (fst (bleak_thread (BleakDriver.self s) pc (BleakDriver.world s))))
          (BleakDriver.threads s)) s).
Proof.
  intros Hth. unfold BleakDriver.step. rewrite Hth.
  destruct (BleakDriver._bleak_thread _ _ _ _ pc _) as [pc' w']. reflexivity.
Qed.

(** X7: an exception in the connection thread is never caught.  Whichever
    step of it raises, the thread has ended with that exception and takes
    no further step; the step took nothing out of [req_queue] and left
    [resp_queue], the calls the handler received and the other threads as
    they were, and a driver whose field is bound to the thread is no longer
    alive.  Its first step raises what the constructor of the base class
    raises on the call [super().__init__(self)], and then without any call
    of the transport; when that constructor returns and the one scan shows
    no device that the matcher accepts for the driver's [hub_mac] and
    [hub_name], the step raises ['Device not found.'] after that scan, its
    only transport call. *)
Theorem X7_exception_ends_the_unit :
  forall (s : BleakDriver.System) (tid : nat) (pc : BleakDriver.conn_pc),
    nth_error (BleakDriver.threads s) tid = Some (BleakDriver.ConnectionThread pc) ->
    let s' := step (BleakDriver.Run tid) s in
    (forall e,
        nth_error (BleakDriver.threads s') tid =
          Some (BleakDriver.ConnectionThread (BleakDriver.CRaised e)) ->
        step (BleakDriver.Run tid) s' = s' /\
        BleakDriver.tid_is_alive s' tid = false /\
        req_queue (BleakDriver.world s') = req_queue (BleakDriver.world s) /\
        resp_queue (BleakDriver.world s') = resp_queue (BleakDriver.world s) /\
        BleakDriver.handled s' = BleakDriver.handled s /\
        (forall other, other <> tid ->
           nth_error (BleakDriver.threads s') other =
           nth_error (BleakDriver.threads s) other) /\
        (BleakDriver._connection_thread (BleakDriver.self s) = Some tid ->
         BleakDriver.is_alive s' = false)) /\
    (pc = BleakDriver.CConnect ->
     (forall e,
         connection_init env 1 = Raise e ->
         nth_error (BleakDriver.threads s') tid =
           Some (BleakDriver.ConnectionThread (BleakDriver.CRaised e)) /\
         calls (BleakDriver.world s') = calls (BleakDriver.world s)) /\
     (connection_init env 1 = Ok tt ->
      no_match _is_device_matched
        (BleakDriver.hub_mac (BleakDriver.self s))
        (BleakDriver.hub_name (BleakDriver.self s))
        (hd [] (scans (BleakDriver.world s))) ->
      nth_error (BleakDriver.threads s') tid =
        Some (BleakDriver.ConnectionThread
                (BleakDriver.CRaised (ConnectionError "Device not found."))) /\
      calls (BleakDriver.world s') = calls (BleakDriver.world s) ++ [Discover 10])).
Proof.
  intros s tid pc Hth s'.
  pose proof (connection_thread_step s tid pc Hth) as Hs'. fold s' in Hs'.
  assert (Hnth : nth_error (BleakDriver.threads s') tid =
                 Some (BleakDriver.ConnectionThread
                         (fst (bleak_thread (BleakDriver.self s) pc (BleakDriver.world s))))).
  { rewrite Hs'. simpl. eapply nth_error_set_nth_same. eassumption. }
  split.
  - intros e He. rewrite Hnth in He. injection He as He.
    assert (Hdead : BleakDriver.tid_is_alive s' tid = false).
    { unfold BleakDriver.tid_is_alive. rewrite Hnth, He. reflexivity. }
    split; [apply (ended_connection_thread s' tid e); now rewrite Hnth, He|].
    split; [exact Hdead|].
    split; [rewrite Hs'; simpl; now apply (bleak_thread_raised _ _ _ e)|].
    split; [rewrite Hs'; simpl; apply bleak_thread_resp_queue|].
    split; [now rewrite Hs'|].
    split.
    + intros other Hne. rewrite Hs'. simpl. now apply nth_error_set_nth_other.
    + intros Hfield. apply (is_alive_dead_connection s' tid); [|exact Hdead].
      rewrite Hs'. exact Hfield.
  - intros ->. split.
    + intros e He. rewrite Hnth, Hs'. simpl.
      unfold BleakConnection.__init__. rewrite He. split; reflexivity.
    + intros Hok Hmiss.
      destruct (connect_single_scan_miss _is_device_matched env _ _
                  BleakConnection.blank (BleakDriver.world s) Hmiss) as (Hres & _ & Hcalls).
      rewrite Hnth, Hs'. simpl.
      unfold BleakConnection.__init__. rewrite Hok.
      destruct (BleakConnection.connect _ _ _ _ _) as [[a|e] [b w']]; simpl in *.
      * discriminate.
      * inversion Hres; subst. split; [reflexivity | exact Hcalls].
Qed.

(** X8: when the processing thread comes to call the handler for a
    notification and no handler is registered, or the handler raises on
    it, the thread ends there.  The handler received the notification
    only if there was one; the notification is in no queue any more, the
    thread takes no further step, so what is queued is never handed over,
    and a driver whose field is bound to the thread is no longer alive. *)
Theorem X8_handler_failure_ends_the_unit :
  forall (s : BleakDriver.System) (tid : nat) (msg : Z * list byte),
    nth_error (BleakDriver.threads s) tid =
      Some (BleakDriver.ProcessingThread (BleakDriver.PHandler msg)) ->
    (forall handler,
        BleakDriver._handler (BleakDriver.self s) = Some handler ->
        exists e, handler (fst msg) (snd msg) = Raise e) ->
    let s' := step (BleakDriver.Run tid) s in
    (exists e, nth_error (BleakDriver.threads s') tid =
                 Some (BleakDriver.ProcessingThread (BleakDriver.PRaised e))) /\
    BleakDriver.world s' = BleakDriver.world s /\
    BleakDriver.handled s' =
      BleakDriver.handled s ++
      match BleakDriver._handler (BleakDriver.self s) with
      | Some _ => [msg]
      | None => []
      end /\
    step (BleakDriver.Run tid) s' = s' /\
    (BleakDriver._processing_thread (BleakDriver.self s) = Some tid ->
     BleakDriver.is_alive s' = false).
Proof.
  intros s tid msg Hth Hbad s'.
  assert (Hs' : exists e,
            s' = BleakDriver.set_handled
                   (BleakDriver.handled s ++
                    match BleakDriver._handler (BleakDriver.self s) with
                    | Some _ => [msg]
                    | None => []
                    end)
                   (BleakDriver.set_world (BleakDriver.world s)
                      (BleakDriver.set_threads
                         (BleakDriver.set_nth tid
                            (BleakDriver.ProcessingThread (BleakDriver.PRaised e))
                            (BleakDriver.threads s)) s))).
  { subst s'. unfold BleakDriver.step. rewrite Hth.
    unfold BleakDriver._processing.
    destruct (BleakDriver._handler (BleakDriver.self s)) as [handler|] eqn:Hh.
    - destruct (Hbad handler eq_refl) as [e He]. rewrite He. now exists e.
    - eexists. reflexivity. }
  destruct Hs' as [e Hs'].
  assert (Hnth : nth_error (BleakDriver.threads s') tid =
                 Some (BleakDriver.ProcessingThread (BleakDriver.PRaised e))).
  { rewrite Hs'. simpl. eapply nth_error_set_nth_same. eassumption. }
  split; [now exists e|]. split; [now rewrite Hs'|]. split; [now rewrite Hs'|]. split.
  - unfold BleakDriver.step. rewrite Hnth. simpl. rewrite app_nil_r.
    destruct s' as [d ths w hs].
    unfold BleakDriver.set_handled, BleakDriver.set_world, BleakDriver.set_threads.
    simpl in *. f_equal.
    clear - Hnth. revert tid Hnth.
    induction ths as [|a ths IH]; intros [|n] H; simpl in *; try discriminate.
    + now inversion H.
    + f_equal. now apply IH.
  - intros Hfield. apply (is_alive_dead_processing s' tid).
    + rewrite Hs'. exact Hfield.
    + unfold BleakDriver.tid_is_alive. now rewrite Hnth.
Qed.

(** *** Shutdown *)

(** A step of [_bleak_thread] does not arrive at [get] with an empty
    [req_queue]. *)
Lemma bleak_thread_get (d : BleakDriver.t) (pc : BleakDriver.conn_pc) (w : World) :
  (forall bleak, pc = BleakDriver.CGet bleak -> req_queue w <> []) ->
  forall bleak,
    fst (bleak_thread d pc w) = BleakDriver.CGet bleak ->
    req_queue (snd (bleak_thread d pc w)) <> [].
Proof.
  intros Hget b.
  destruct pc as [|bleak|bleak|bleak|bleak|bleak|bleak|bleak data| |e];
    unfold BleakDriver._bleak_thread, BleakDriver.after_call.
  - destruct (BleakConnection.__init__ env) as [b0|e0]; [|discriminate].
    destruct (BleakConnection.connect _ _ _ _ _) as [[a|e] [b' w']]; discriminate.
  - destruct (BleakConnection.set_notify_handler _ _ _) as [[a|e] [b' w']]; discriminate.
  - destruct (BleakConnection.write_char _ _ _) as [[a|e] [b' w']]; discriminate.
  - destruct (BleakDriver._abort d); discriminate.
  - discriminate.
  - destruct (req_queue w) as [|x q] eqn:Hq; simpl; [discriminate|].
    intros _. rewrite Hq. discriminate.
  - specialize (Hget bleak eq_refl).
    destruct (req_queue w); [contradiction | discriminate].
  - destruct (BleakConnection.write _ _ _ _) as [[a|e] [b' w']]; discriminate.
  - discriminate.
  - discriminate.
Qed.

(** With the shutdown flag set, a step of [_bleak_thread] that does not
    wait in [get] brings the coroutine nearer to its end. *)
Lemma bleak_thread_rank (d : BleakDriver.t) (pc : BleakDriver.conn_pc) (w : World) :
  BleakDriver._abort d = true ->
  (forall bleak, pc = BleakDriver.CGet bleak -> req_queue w <> []) ->
  (conn_rank (fst (bleak_thread d pc w)) <= conn_rank pc - 1)%nat.
Proof.
  intros Habort Hget.
  destruct pc as [|bleak|bleak|bleak|bleak|bleak|bleak|bleak data| |e];
    unfold BleakDriver._bleak_thread, BleakDriver.after_call.
  - destruct (BleakConnection.__init__ env) as [b0|e0]; [|simpl; lia].
    destruct (BleakConnection.connect _ _ _ _ _) as [[a|e] [b' w']]; simpl; lia.
  - destruct (BleakConnection.set_notify_handler _ _ _) as [[a|e] [b' w']]; simpl; lia.
  - destruct (BleakConnection.write_char _ _ _) as [[a|e] [b' w']]; simpl; lia.
  - rewrite Habort. simpl. lia.
  - simpl. lia.
  - destruct (negb _); simpl; lia.
  - specialize (Hget bleak eq_refl).
    destruct (req_queue w); [contradiction | simpl; lia].
  - destruct (BleakConnection.write _ _ _ _) as [[a|e] [b' w']]; simpl; lia.
  - simpl. lia.
  - simpl. lia.
Qed.

(** The same for [_processing], which besides keeps away from a [get] on
    an empty [resp_queue] and leaves [req_queue] alone. *)
Lemma processing_rank (d : BleakDriver.t) (pc : BleakDriver.proc_pc) (w : World) :
  (pc = BleakDriver.PGet -> resp_queue w <> []) ->
  let r := BleakDriver._processing d pc w in
  (fst (fst r) = BleakDriver.PGet -> resp_queue (snd (fst r)) <> []) /\
  req_queue (snd (fst r)) = req_queue w /\
  (BleakDriver._abort d = true -> (proc_rank (fst (fst r)) <= proc_rank pc - 1)%nat).
Proof.
  intros Hget r. subst r. destruct pc as [| | |msg| | |e]; simpl.
  - destruct (BleakDriver._abort d); simpl; repeat split; try discriminate.
    intros _. lia.
  - destruct (resp_queue w) as [|x q] eqn:Hq; simpl.
    + repeat split; try discriminate. intros _. lia.
    + repeat split; [intros _; rewrite Hq; discriminate | intros _; lia].
  - specialize (Hget eq_refl).
    destruct (resp_queue w); [contradiction|]. simpl.
    repeat split; try discriminate. intros _. lia.
  - destruct (BleakDriver._handler d) as [h|]; [destruct (h _ _)|]; simpl;
      repeat split; try discriminate; intros _; lia.
  - repeat split; try discriminate. intros _. lia.
  - repeat split; try discriminate. intros _. lia.
  - repeat split; try discriminate. intros _. lia.
Qed.

Lemma app_not_nil {A} (l m : list A) : l <> [] -> l ++ m <> [].
Proof. destruct l; [contradiction | discriminate]. Qed.

(** Every step keeps [units_once], and with the shutdown flag set it
    keeps the flag and does not raise a rank, while a step of a unit
    lowers the rank of that unit. *)
Lemma step_units_once (a : BleakDriver.action) (s : BleakDriver.System) :
  units_once s ->
  (a = BleakDriver.EnableNotifications -> BleakDriver.threads s = []) ->
  units_once (step a s) /\
  (BleakDriver._abort (BleakDriver.self s) = true ->
   a <> BleakDriver.EnableNotifications ->
   BleakDriver._abort (BleakDriver.self (step a s)) = true /\
   (fst (unit_ranks (step a s)) <= fst (unit_ranks s) - count_run 0 [a])%nat /\
   (snd (unit_ranks (step a s)) <=
      snd (unit_ranks s) - count_run 1 [a])%nat).
Proof.
  intros [(Hth & Hct) | (cpc & ppc & Hth & Hct & Hpt & Hcg & Hpg)] Hen.
  - destruct a as [handler| |handle data| |tid|tid handle data].
    + split; [left; auto|]. intros Ha _. unfold unit_ranks, count_run. simpl. rewrite Hth.
      simpl. auto.
    + split; [|intros _ Hne; congruence].
      right. exists BleakDriver.CConnect, BleakDriver.PWhile.
      unfold step, BleakDriver.step, BleakDriver.enable_notifications. rewrite Hth. simpl.
      repeat split; discriminate.
    + assert (Hw : step (BleakDriver.Write handle data) s = s).
      { unfold BleakDriver.step, BleakDriver.write. now rewrite Hct. }
      rewrite Hw. split; [left; auto|]. intros Ha _. unfold unit_ranks, count_run.
      rewrite Hth. simpl. auto.
    + split; [left; auto|]. intros _ _. unfold unit_ranks, count_run. simpl. rewrite Hth.
      simpl. auto.
    + assert (Hw : step (BleakDriver.Run tid) s = s).
      { unfold BleakDriver.step. rewrite Hth. now destruct tid. }
      rewrite Hw. split; [left; auto|]. intros Ha _. unfold unit_ranks, count_run.
      rewrite Hth. simpl. repeat split; auto; lia.
    + assert (Hw : step (BleakDriver.Notification tid handle data) s = s).
      { unfold BleakDriver.step, BleakDriver.can_notify. rewrite Hth. now destruct tid. }
      rewrite Hw. split; [left; auto|]. intros Ha _. unfold unit_ranks, count_run.
      rewrite Hth. simpl. auto.
  - destruct a as [handler| |handle data| |tid|tid handle data].
    + split.
      * right. exists cpc, ppc. simpl. auto.
      * intros Ha _. unfold unit_ranks, count_run. simpl. rewrite Hth. simpl.
        repeat split; auto; lia.
    + rewrite Hen in Hth by reflexivity. discriminate.
    + destruct (write_cases s cpc ppc handle data Hth Hct Hpt)
        as [(_ & Hwr) | (e & Hwr)]; unfold step, BleakDriver.step; rewrite Hwr;
        simpl snd.
      * split.
        -- right. exists cpc, ppc. simpl. repeat split; auto.
           intros bleak Hb. apply app_not_nil. eauto.
        -- intros Ha _. unfold unit_ranks, count_run. simpl. rewrite Hth. simpl.
           repeat split; auto; lia.
      * split.
        -- right. exists cpc, ppc. auto 10.
        -- intros Ha _. unfold unit_ranks, count_run. rewrite Hth. simpl.
           repeat split; auto; lia.
    + split.
      * right. exists cpc, ppc. simpl. auto 10.
      * intros _ _. unfold unit_ranks, count_run. simpl. rewrite Hth. simpl.
        repeat split; auto; lia.
    + unfold step, BleakDriver.step. rewrite Hth.
      destruct tid as [|[|tid]]; cbn [nth_error].
      * pose proof (bleak_thread_get (BleakDriver.self s) cpc (BleakDriver.world s) Hcg) as Hg.
        pose proof (bleak_thread_rank (BleakDriver.self s) cpc (BleakDriver.world s)) as Hr.
        pose proof (bleak_thread_resp_queue (BleakDriver.self s) cpc (BleakDriver.world s))
          as Hq.
        destruct (BleakDriver._bleak_thread _ _ _ _ cpc _) as [pc' w'].
        simpl in *. split.
        -- right. exists pc', ppc. simpl. repeat split; auto;
             try (rewrite Hq; exact Hpg).
        -- intros Ha _. unfold unit_ranks, count_run. simpl. rewrite Hth. simpl.
           repeat split; auto; lia.
      * pose proof (processing_rank (BleakDriver.self s) ppc (BleakDriver.world s) Hpg)
          as Hp. cbv zeta in Hp.
        destruct (BleakDriver._processing _ ppc _) as [[pc' w'] inv].
        simpl in *. destruct Hp as (Hg & Hq & Hr). split.
        -- right. exists cpc, pc'. simpl. repeat split; auto;
             try (rewrite Hq; exact Hcg).
        -- intros Ha _. unfold unit_ranks, count_run. simpl. rewrite Hth. simpl.
           specialize (Hr Ha). repeat split; auto; lia.
      * assert (Hn : nth_error (@nil BleakDriver.Thread) tid = None) by now destruct tid.
        rewrite Hn. split.
        -- right. exists cpc, ppc. auto 10.
        -- intros Ha _. unfold unit_ranks, count_run. rewrite Hth. simpl.
           repeat split; auto; lia.
    + unfold step, BleakDriver.step.
      destruct (BleakDriver.can_notify s tid); simpl.
      * split.
        -- right. exists cpc, ppc. simpl. repeat split; auto.
           intros Hp. apply app_not_nil. auto.
        -- intros Ha _. unfold unit_ranks, count_run. simpl. rewrite Hth. simpl.
           repeat split; auto; lia.
      * split.
        -- right. exists cpc, ppc. auto 10.
        -- intros Ha _. unfold unit_ranks, count_run. rewrite Hth. simpl.
           repeat split; auto; lia.
Qed.

Lemma run_units_once (tr : list BleakDriver.action) :
  forall s,
    units_once s ->
    (BleakDriver.count_enable tr <= 1 - List.length (BleakDriver.threads s))%nat ->
    units_once (run tr s).
Proof.
  induction tr as [|a tr IH]; intros s Hinv Hcount; [exact Hinv|].
  change (run (a :: tr) s) with (run tr (step a s)).
  apply IH.
  - apply step_units_once; [exact Hinv|].
    intros ->. unfold BleakDriver.count_enable in Hcount. simpl in Hcount.
    destruct (BleakDriver.threads s); [reflexivity | simpl in Hcount; lia].
  - destruct a as [handler| |handle data| |tid|tid handle data];
      try (rewrite (step_threads_length MOVE_HUB_HW_UUID_CHAR _is_device_matched env)
             by discriminate; exact Hcount).
    assert (Hc : BleakDriver.count_enable (BleakDriver.EnableNotifications :: tr) =
                 S (BleakDriver.count_enable tr)) by reflexivity.
    assert (Hl : List.length (BleakDriver.threads (step BleakDriver.EnableNotifications s)) =
                 (List.length (BleakDriver.threads s) + 2)%nat)
      by (simpl; rewrite length_app; simpl; lia).
    lia.
Qed.

Lemma count_run_cons (tid : nat) (a : BleakDriver.action) (tr : list BleakDriver.action) :
  count_run tid (a :: tr) = (count_run tid [a] + count_run tid tr)%nat.
Proof.
  unfold count_run. simpl.
  destruct a; simpl; try reflexivity.
  destruct (Nat.eqb tid0 tid); reflexivity.
Qed.

(** Once the flag is set, and with no further [enable_notifications],
    each unit is at most as far from its end as it was, less the steps it
    was given. *)
Lemma run_shutdown (tr : list BleakDriver.action) :
  forall s,
    units_once s ->
    BleakDriver._abort (BleakDriver.self s) = true ->
    BleakDriver.count_enable tr = 0%nat ->
    (fst (unit_ranks (run tr s)) <= fst (unit_ranks s) - count_run 0 tr)%nat /\
    (snd (unit_ranks (run tr s)) <= snd (unit_ranks s) - count_run 1 tr)%nat.
Proof.
  induction tr as [|a tr IH]; intros s Hinv Habort Hcount.
  - simpl. unfold count_run. simpl. lia.
  - change (run (a :: tr) s) with (run tr (step a s)).
    assert (Ha : a <> BleakDriver.EnableNotifications).
    { intros ->. discriminate. }
    assert (Htr : BleakDriver.count_enable tr = 0%nat).
    { destruct a; try exact Hcount. congruence. }
    destruct (step_units_once a s Hinv) as [Hinv' Hstep]; [congruence|].
    destruct (Hstep Habort Ha) as (Habort' & Hc & Hp).
    destruct (IH (step a s) Hinv' Habort' Htr) as [IHc IHp].
    rewrite !(count_run_cons _ a tr). lia.
Qed.

Lemma conn_rank_dead (pc : BleakDriver.conn_pc) :
  conn_rank pc = 0%nat ->
  BleakDriver.thread_is_alive (BleakDriver.ConnectionThread pc) = false.
Proof. destruct pc; simpl; congruence. Qed.

Lemma proc_rank_dead (pc : BleakDriver.proc_pc) :
  proc_rank pc = 0%nat ->
  BleakDriver.thread_is_alive (BleakDriver.ProcessingThread pc) = false.
Proof. destruct pc; simpl; congruence. Qed.

Lemma unit_ranks_bound (s : BleakDriver.System) :
  (fst (unit_ranks s) <= 5 /\ snd (unit_ranks s) <= 5)%nat.
Proof.
  unfold unit_ranks.
  destruct (BleakDriver.threads s) as [|[c|p] [|[c'|p'] [|x l]]]; simpl; try lia.
  destruct c, p'; simpl; lia.
Qed.

(** X9: shutdown is bounded.  On a driver whose units were started at
    most once, once [disconnect] has been called then, whatever else the
    application, the device and the units do meanwhile, short of starting
    units again, the connection thread has left after five of its own
    steps and the processing thread after five of its own: neither is
    alive, and [is_alive] answers [False]. *)
Theorem X9_shutdown_within_five_steps :
  forall (hub_mac hub_name : option string) (scans : list (list Device))
         (faults : list bool) (before after : list BleakDriver.action),
    (BleakDriver.count_enable before <= 1)%nat ->
    BleakDriver.count_enable after = 0%nat ->
    (5 <= count_run 0 after)%nat ->
    (5 <= count_run 1 after)%nat ->
    let s := run (before ++ BleakDriver.Disconnect :: after)
               (BleakDriver.fresh hub_mac hub_name scans faults) in
    BleakDriver.tid_is_alive s 0 = false /\
    BleakDriver.tid_is_alive s 1 = false /\
    BleakDriver.is_alive s = false.
Proof.
  intros hub_mac hub_name scans faults before after Hb Ha H0 H1 s.
  set (s0 := BleakDriver.fresh hub_mac hub_name scans faults) in *.
  assert (Hinv0 : units_once s0) by (left; split; reflexivity).
  assert (Hinv1 : units_once (run before s0)).
  { apply run_units_once; [exact Hinv0 | simpl; lia]. }
  set (s1 := run before s0) in *.
  assert (Hinv2 : units_once (step BleakDriver.Disconnect s1)).
  { apply step_units_once; [exact Hinv1 | discriminate]. }
  assert (Hs : s = run after (step BleakDriver.Disconnect s1)).
  { subst s s1. now rewrite (run_app MOVE_HUB_HW_UUID_CHAR _is_device_matched env). }
  destruct (run_shutdown after _ Hinv2 eq_refl Ha) as [Hc Hp].
  rewrite <- Hs in Hc, Hp.
  destruct (unit_ranks_bound (step BleakDriver.Disconnect s1)) as [Bc Bp].
  assert (Hinv : units_once s).
  { rewrite Hs. apply run_units_once; [exact Hinv2|]. rewrite Ha. lia. }
  assert (Hc0 : fst (unit_ranks s) = 0%nat) by lia.
  assert (Hp0 : snd (unit_ranks s) = 0%nat) by lia.
  clearbody s. clear Hc Hp Bc Bp.
  assert (Hdead : BleakDriver.tid_is_alive s 0 = false /\
                  BleakDriver.tid_is_alive s 1 = false).
  { unfold BleakDriver.tid_is_alive.
    destruct Hinv as [(Hth & _) | (cpc & ppc & Hth & _)].
    - rewrite Hth. auto.
    - unfold unit_ranks in Hc0, Hp0. rewrite Hth in *. simpl in Hc0, Hp0. simpl.
      split; [now apply conn_rank_dead | now apply proc_rank_dead]. }
  destruct Hdead as [D0 D1]. split; [exact D0|]. split; [exact D1|].
  unfold BleakDriver.is_alive.
  destruct Hinv as [(_ & Hct) | (cpc & ppc & _ & Hct & Hpt & _)].
  - now rewrite Hct.
  - rewrite Hct, Hpt, D0. reflexivity.
Qed.

(** *** The connection thread empties [req_queue] *)

(** A step of the connection thread when it is the first of two threads. *)
Lemma conn_run (d : BleakDriver.t) (pth : BleakDriver.Thread) (pc : BleakDriver.conn_pc)
    (w : World) (hs : list (Z * list byte)) :
  step (BleakDriver.Run 0)
    (BleakDriver.mkSystem d [BleakDriver.ConnectionThread pc; pth] w hs) =
  BleakDriver.mkSystem d
    [BleakDriver.ConnectionThread (fst (bleak_thread d pc w)); pth]
    (snd (bleak_thread d pc w)) hs.
Proof.
  unfold BleakDriver.step. cbn [nth_error BleakDriver.threads BleakDriver.self
    BleakDriver.world BleakDriver.handled].
  destruct (BleakDriver._bleak_thread _ _ _ d pc w) as [pc' w']. reflexivity.
Qed.

Lemma writes_go_through_hd (w : World) :
  writes_go_through w -> hd false (write_faults w) = false.
Proof.
  unfold writes_go_through. destruct (write_faults w); [reflexivity|].
  now inversion 1.
Qed.

Section WriteDrain.
Variable d : BleakDriver.t.
Variable pth : BleakDriver.Thread.
Variable bleak : BleakConnection.t.
Variable cl : BleakClient.
Hypothesis running : BleakDriver._abort d = false.
Hypothesis connected : BleakConnection._client bleak = Some cl.

Local Abbreviation sys pc w hs :=
  (BleakDriver.mkSystem d [BleakDriver.ConnectionThread pc; pth] w hs).
Local Abbreviation turns n := (repeat (BleakDriver.Run 0) n).
Local Abbreviation sent_as := (write_call MOVE_HUB_HW_UUID_CHAR (services cl)).

(** The step that hands a write to a transport that takes it. *)
Lemma write_step (data : Z * pydata) (w : World) :
  writes_go_through w ->
  exists w',
    bleak_thread d (BleakDriver.CWrite bleak data) w = (BleakDriver.CWhile bleak, w') /\
    calls w' = calls w ++ [sent_as data] /\
    req_queue w' = req_queue w /\
    writes_go_through w'.
Proof.
  intros Hgo. unfold BleakDriver._bleak_thread.
  rewrite (BleakConnection_write_call MOVE_HUB_HW_UUID_CHAR bleak cl _ _ _ connected).
  unfold inW, write_gatt_char. cbn [fst snd log set_log write_faults].
  rewrite (writes_go_through_hd w Hgo). cbn [BleakDriver.after_call].
  eexists. split; [reflexivity|]. split; [reflexivity|]. split; [reflexivity|].
  unfold writes_go_through in *. simpl.
  destruct (write_faults w); [constructor | now inversion Hgo].
Qed.

(** From the head of the loop, with [q] queued: after enough steps of the
    connection thread the transport has been given all of [q], in order,
    and the thread is back at the head of its loop. *)
Lemma drain_writes_from_while (q : list (Z * pydata)) :
  forall w hs,
    req_queue w = q ->
    writes_go_through w ->
    exists n w',
      run (turns n) (sys (BleakDriver.CWhile bleak) w hs) =
        sys (BleakDriver.CWhile bleak) w' hs /\
      calls w' = calls w ++ map sent_as q /\
      req_queue w' = [].
Proof.
  induction q as [|data q IH]; intros w hs Hq Hgo.
  - exists 0%nat, w. simpl. rewrite app_nil_r. auto.
  - destruct (write_step data (set_req_queue q w)) as (w1 & Hstep & Hc1 & Hq1 & Hgo1);
      [exact Hgo|].
    destruct (IH w1 hs Hq1 Hgo1) as (n & w' & Hrun & Hc & Hr).
    exists (5 + n)%nat, w'. split; [|split; [|exact Hr]].
    + rewrite repeat_app, (run_app MOVE_HUB_HW_UUID_CHAR _is_device_matched env).
      rewrite <- Hrun. f_equal.
      unfold BleakDriver.run. cbn [repeat fold_left].
      rewrite conn_run. cbn [BleakDriver._bleak_thread]. rewrite running. cbn [fst snd].
      rewrite conn_run. cbn [BleakDriver._bleak_thread fst snd].
      rewrite conn_run. cbn [BleakDriver._bleak_thread]. rewrite Hq.
      cbn [fst snd List.length Nat.eqb negb].
      rewrite conn_run. cbn [BleakDriver._bleak_thread]. rewrite Hq. cbn [fst snd].
      rewrite conn_run. rewrite Hstep. reflexivity.
    + rewrite Hc, Hc1. simpl. now rewrite <- app_assoc.
Qed.

(** The same from any point of the loop. *)
Lemma drain_writes_from (pc : BleakDriver.conn_pc) (w : World) (hs : list (Z * list byte)) :
  loop_connection pc = Some bleak ->
  writes_go_through w ->
  exists n pc' w',
    run (turns n) (sys pc w hs) = sys pc' w' hs /\
    loop_connection pc' = Some bleak /\
    calls w' =
      calls w ++ map sent_as
                   (write_in_flight (Some (BleakDriver.ConnectionThread pc)) ++ req_queue w) /\
    req_queue w' = [].
Proof.
  intros Hloop Hgo.
  destruct pc as [|b|b|b|b|b|b|b data| |e]; try discriminate;
    simpl in Hloop; inversion Hloop; subst b; cbn [write_in_flight app].
  - destruct (drain_writes_from_while (req_queue w) w hs eq_refl Hgo)
      as (n & w' & Hrun & Hc & Hr).
    exists n, (BleakDriver.CWhile bleak), w'. auto.
  - destruct (req_queue w) as [|data q] eqn:Hq.
    + exists 0%nat, (BleakDriver.CSleep bleak), w. simpl. rewrite app_nil_r. auto.
    + destruct (write_step data (set_req_queue q w)) as (w1 & Hstep & Hc1 & Hq1 & Hgo1);
        [exact Hgo|].
      destruct (drain_writes_from_while q w1 hs Hq1 Hgo1) as (n & w' & Hrun & Hc & Hr).
      exists (4 + n)%nat, (BleakDriver.CWhile bleak), w'.
      split; [|split; [reflexivity|split; [|exact Hr]]].
      * rewrite repeat_app, (run_app MOVE_HUB_HW_UUID_CHAR _is_device_matched env).
        rewrite <- Hrun. f_equal.
        unfold BleakDriver.run. cbn [repeat fold_left].
        rewrite conn_run. cbn [BleakDriver._bleak_thread fst snd].
        rewrite conn_run. cbn [BleakDriver._bleak_thread]. rewrite Hq.
        cbn [fst snd List.length Nat.eqb negb].
        rewrite conn_run. cbn [BleakDriver._bleak_thread]. rewrite Hq. cbn [fst snd].
        rewrite conn_run. rewrite Hstep. reflexivity.
      * rewrite Hc, Hc1. simpl. now rewrite <- app_assoc.
  - destruct (req_queue w) as [|data q] eqn:Hq.
    + exists 0%nat, (BleakDriver.CQsize bleak), w. simpl. rewrite app_nil_r. auto.
    + destruct (write_step data (set_req_queue q w)) as (w1 & Hstep & Hc1 & Hq1 & Hgo1);
        [exact Hgo|].
      destruct (drain_writes_from_while q w1 hs Hq1 Hgo1) as (n & w' & Hrun & Hc & Hr).
      exists (3 + n)%nat, (BleakDriver.CWhile bleak), w'.
      split; [|split; [reflexivity|split; [|exact Hr]]].
      * rewrite repeat_app, (run_app MOVE_HUB_HW_UUID_CHAR _is_device_matched env).
        rewrite <- Hrun. f_equal.
        unfold BleakDriver.run. cbn [repeat fold_left].
        rewrite conn_run. cbn [BleakDriver._bleak_thread]. rewrite Hq.
        cbn [fst snd List.length Nat.eqb negb].
        rewrite conn_run. cbn [BleakDriver._bleak_thread]. rewrite Hq. cbn [fst snd].
        rewrite conn_run. rewrite Hstep. reflexivity.
      * rewrite Hc, Hc1. simpl. now rewrite <- app_assoc.
  - destruct (req_queue w) as [|data q] eqn:Hq.
    + exists 0%nat, (BleakDriver.CGet bleak), w. simpl. rewrite app_nil_r. auto.
    + destruct (write_step data (set_req_queue q w)) as (w1 & Hstep & Hc1 & Hq1 & Hgo1);
        [exact Hgo|].
      destruct (drain_writes_from_while q w1 hs Hq1 Hgo1) as (n & w' & Hrun & Hc & Hr).
      exists (2 + n)%nat, (BleakDriver.CWhile bleak), w'.
      split; [|split; [reflexivity|split; [|exact Hr]]].
      * rewrite repeat_app, (run_app MOVE_HUB_HW_UUID_CHAR _is_device_matched env).
        rewrite <- Hrun. f_equal.
        unfold BleakDriver.run. cbn [repeat fold_left].
        rewrite conn_run. cbn [BleakDriver._bleak_thread]. rewrite Hq. cbn [fst snd].
        rewrite conn_run. rewrite Hstep. reflexivity.
      * rewrite Hc, Hc1. simpl. now rewrite <- app_assoc.
  - destruct (write_step data w Hgo) as (w1 & Hstep & Hc1 & Hq1 & Hgo1).
    destruct (drain_writes_from_while (req_queue w) w1 hs Hq1 Hgo1)
      as (n & w' & Hrun & Hc & Hr).
    exists (1 + n)%nat, (BleakDriver.CWhile bleak), w'.
    split; [|split; [reflexivity|split; [|exact Hr]]].
    + rewrite repeat_app, (run_app MOVE_HUB_HW_UUID_CHAR _is_device_matched env).
      rewrite <- Hrun. f_equal.
      unfold BleakDriver.run. cbn [repeat fold_left].
      rewrite conn_run. rewrite Hstep. reflexivity.
    + rewrite Hc, Hc1. simpl. now rewrite <- app_assoc.
Qed.
End WriteDrain.

Lemma loop_connection_alive (pc : BleakDriver.conn_pc) (bleak : BleakConnection.t) :
  loop_connection pc = Some bleak ->
  BleakDriver.thread_is_alive (BleakDriver.ConnectionThread pc) = true.
Proof. destruct pc; simpl; congruence. Qed.

(** X10: queued writes are sent.  When the connection thread is in its
    loop with a connected client, no shutdown is requested and the
    transport takes the coming writes, then after finitely many steps of
    that thread the transport has been given the write the thread holds
    and every write in [req_queue], one call each and in queue order, on
    the characteristic that the client's descriptors name; [req_queue] is
    then empty and the thread still alive. *)
Theorem X10_queued_writes_are_sent :
  forall (s : BleakDriver.System) (pc : BleakDriver.conn_pc) (pth : BleakDriver.Thread)
         (bleak : BleakConnection.t) (cl : BleakClient),
    BleakDriver.threads s = [BleakDriver.ConnectionThread pc; pth] ->
    loop_connection pc = Some bleak ->
    BleakConnection._client bleak = Some cl ->
    BleakDriver._abort (BleakDriver.self s) = false ->
    writes_go_through (BleakDriver.world s) ->
    exists n,
      let s' := run (repeat (BleakDriver.Run 0) n) s in
      calls (BleakDriver.world s') =
        calls (BleakDriver.world s) ++
        map (write_call MOVE_HUB_HW_UUID_CHAR (services cl))
            (write_in_flight (nth_error (BleakDriver.threads s) 0)
             ++ req_queue (BleakDriver.world s)) /\
      req_queue (BleakDriver.world s') = [] /\
      BleakDriver.tid_is_alive s' 0 = true /\
      BleakDriver.handled s' = BleakDriver.handled s.
Proof.
  intros s pc pth bleak cl Hth Hloop Hcl Hrun Hgo.
  destruct (drain_writes_from (BleakDriver.self s) pth bleak cl Hrun Hcl pc
              (BleakDriver.world s) (BleakDriver.handled s) Hloop Hgo)
    as (n & pc' & w' & Hs' & Hloop' & Hc & Hq).
  exists n. cbv zeta.
  assert (Es : run (repeat (BleakDriver.Run 0) n) s =
               BleakDriver.mkSystem (BleakDriver.self s)
                 [BleakDriver.ConnectionThread pc'; pth] w' (BleakDriver.handled s)).
  { rewrite <- Hs'. f_equal. clear - Hth. destruct s; simpl in *. now subst. }
  rewrite Es, Hth. cbn [nth_error BleakDriver.world BleakDriver.handled].
  split; [exact Hc|]. split; [exact Hq|]. split; [|reflexivity].
  unfold BleakDriver.tid_is_alive. cbn [nth_error BleakDriver.threads].
  eapply loop_connection_alive. eassumption.
Qed.
(** *** Writes on a driver whose units were started once *)



(** *** Queued notifications are handed over *)

(** X14: when the processing thread is alive, a handler is registered
    that returns on every notification, and no shutdown is requested, then
    after finitely many steps of that thread the handler has received the
    notification the thread holds and every notification in [resp_queue],
    once each and in queue order, after the calls it had received before;
    [resp_queue] is then empty. *)
Theorem X14_queued_notifications_are_handed_over :
  forall (s : BleakDriver.System) (cth : BleakDriver.Thread) (pc : BleakDriver.proc_pc)
         (handler : BleakDriver.Handler),
    BleakDriver.threads s = [cth; BleakDriver.ProcessingThread pc] ->
    BleakDriver.thread_is_alive (BleakDriver.ProcessingThread pc) = true ->
    BleakDriver._handler (BleakDriver.self s) = Some handler ->
    (forall handle data, handler handle data = Ok tt) ->
    BleakDriver._abort (BleakDriver.self s) = false ->
    exists n,
      let s' := run (repeat (BleakDriver.Run 1) n) s in
      BleakDriver.handled s' =
        BleakDriver.handled s ++
        msg_in_flight (nth_error (BleakDriver.threads s) 1) ++
        resp_queue (BleakDriver.world s) /\
      resp_queue (BleakDriver.world s') = [].
Proof.
  intros s cth pc handler Hth Halive Hreg Hret Hrun.
  destruct (drain_from MOVE_HUB_HW_UUID_CHAR _is_device_matched env
              (BleakDriver.self s) handler cth Hrun Hreg Hret
              pc (BleakDriver.world s) (BleakDriver.handled s) Halive)
    as (n & s' & Hs' & Hh & Hq).
  assert (Es : run (repeat (BleakDriver.Run 1) n) s = s').
  { rewrite <- Hs'. f_equal. clear - Hth. destruct s; simpl in *. now subst. }
  exists n. cbv zeta. rewrite Es, Hth. cbn [nth_error].
  split; [exact Hh | exact Hq].
Qed.

(** *** The keepalive of a unit *)

Lemma connection_pc_run_self (s : BleakDriver.System) (tid : nat) (pc : BleakDriver.conn_pc) :
  connection_pc s tid = Some pc ->
  nth_error (BleakDriver.threads s) tid = Some (BleakDriver.ConnectionThread pc) /\
  connection_pc (step (BleakDriver.Run tid) s) tid =
    Some (fst (bleak_thread (BleakDriver.self s) pc (BleakDriver.world s))).
Proof.
  unfold connection_pc. intros H.
  destruct (nth_error (BleakDriver.threads s) tid) as [[pc0|pc0]|] eqn:Hth;
    try discriminate.
  injection H as ->. split; [reflexivity|].
  rewrite (connection_thread_step s tid pc Hth). simpl.
  now rewrite (nth_error_set_nth_same _ _ _ _ Hth).
Qed.

(** An action that is no step of thread [tid] leaves that thread where it
    stands. *)
Lemma connection_pc_other (a : BleakDriver.action) (s : BleakDriver.System) (tid : nat)
    (pc : BleakDriver.conn_pc) :
  (forall t, a = BleakDriver.Run t -> t <> tid) ->
  connection_pc s tid = Some pc ->
  connection_pc (step a s) tid = Some pc.
Proof.
  intros Hne H. unfold connection_pc in *.
  destruct a as [handler| |handle data| |t|t handle data]; simpl.
  - exact H.
  - rewrite nth_error_app1; [exact H|]. apply nth_error_Some.
    destruct (nth_error (BleakDriver.threads s) tid); discriminate.
  - unfold BleakDriver.write.
    destruct (BleakDriver._connection_thread _); [|exact H].
    destruct (negb _); [exact H|].
    destruct (BleakDriver._processing_thread _); [|exact H].
    destruct (negb _); exact H.
  - exact H.
  - specialize (Hne t eq_refl).
    destruct (nth_error (BleakDriver.threads s) t) as [[pc0|pc0]|] eqn:Ht.
    + destruct (BleakDriver._bleak_thread _ _ _ _ pc0 _) as [pc' w']. simpl.
      now rewrite nth_error_set_nth_other.
    + destruct (BleakDriver._processing _ pc0 _) as [[pc' w'] inv]. simpl.
      now rewrite nth_error_set_nth_other.
    + exact H.
  - destruct (BleakDriver.can_notify s t); exact H.
Qed.

(** The [write_gatt_char] calls of a step of [_bleak_thread]: the
    keepalive in the step from [CKeepalive], the write it holds in the step
    from [CWrite], and none in any other step. *)
Lemma bleak_thread_writes (d : BleakDriver.t) (pc : BleakDriver.conn_pc) (w : World) :
  exists new,
    calls (snd (bleak_thread d pc w)) = calls w ++ new /\
    filter is_write_call new = unit_writes MOVE_HUB_HW_UUID_CHAR pc.
Proof.
  destruct pc as [|bleak|bleak|bleak|bleak|bleak|bleak|bleak data| |e];
    unfold BleakDriver._bleak_thread.
  - destruct (BleakConnection.__init__ env) as [b0|e0];
      [|exists []; simpl; now rewrite app_nil_r].
    pose proof (connect_outcome _is_device_matched env
                  (BleakDriver.hub_mac d) (BleakDriver.hub_name d) b0 w) as Hout.
    cbv zeta in Hout. destruct Hout as (_ & _ & Hc).
    destruct (BleakConnection.connect _ _ _ _ _) as [[a|e1] [b w']]; simpl in *.
    + destruct Hc as [[_ [Hc | [addr Hc]]] | (addr & _ & Hc & _)];
        eexists; (split; [exact Hc | reflexivity]).
    + destruct Hc as [[_ [Hc | [addr Hc]]] | (addr & _ & Hc & _)];
        eexists; (split; [exact Hc | reflexivity]).
  - unfold BleakConnection.set_notify_handler, BleakConnection.client_attr,
      client_start_notify, record_call, bind, inW, getSelf, raise, ret.
    simpl. destruct (BleakConnection._client bleak); simpl;
      [|exists []; simpl; now rewrite app_nil_r].
    destruct (start_notify_fails env); simpl; eexists; split; reflexivity.
  - unfold BleakConnection.write_char, BleakConnection.client_attr,
      write_gatt_char, bind, inW, getSelf, raise, ret.
    simpl. destruct (BleakConnection._client bleak); simpl;
      [|exists []; simpl; now rewrite app_nil_r].
    destruct (hd false (write_faults w)); simpl; eexists; split; reflexivity.
  - destruct (BleakDriver._abort d); exists []; simpl; now rewrite app_nil_r.
  - exists []; simpl; now rewrite app_nil_r.
  - destruct (negb _); exists []; simpl; now rewrite app_nil_r.
  - destruct (req_queue w); exists []; simpl; now rewrite app_nil_r.
  - simpl unit_writes.
    destruct (BleakConnection._client bleak) as [cl|] eqn:Hcl.
    + rewrite (BleakConnection_write_call MOVE_HUB_HW_UUID_CHAR bleak cl _ _ _ Hcl).
      unfold inW, write_gatt_char. simpl.
      destruct (hd false (write_faults w)); simpl; eexists; split; reflexivity.
    + unfold BleakConnection.write, BleakConnection.client_attr,
        bind, inW, getSelf, log_write, raise, ret.
      simpl. rewrite Hcl. simpl. exists []; simpl; now rewrite app_nil_r.
  - exists []; simpl; now rewrite app_nil_r.
  - exists []; simpl; now rewrite app_nil_r.
Qed.

(** A step of [_bleak_thread] keeps [keepalive_inv], with the keepalive
    counted in the step from [CKeepalive] and a write taken counted in the
    step from [CGet] on a queue that is not empty. *)
Lemma bleak_thread_keepalive_inv (d : BleakDriver.t) (pc : BleakDriver.conn_pc) (w : World)
    (k q : nat) :
  keepalive_inv k q pc ->
  keepalive_inv
    (k + match pc with BleakDriver.CKeepalive _ => 1 | _ => 0 end)
    (q + match pc with
         | BleakDriver.CGet _ =>
             if negb (List.length (req_queue w) =? 0)%nat then 1 else 0
         | _ => 0
         end)
    (fst (bleak_thread d pc w)).
Proof.
  intros Hinv.
  destruct pc as [|bleak|bleak|bleak|bleak|bleak|bleak|bleak data| |e];
    unfold BleakDriver._bleak_thread, BleakDriver.after_call.
  - destruct (BleakConnection.__init__ env) as [b0|e0]; [|simpl in *; lia].
    destruct (BleakConnection.connect _ _ _ _ _) as [[a|e1] [b' w']]; simpl in *; lia.
  - destruct (BleakConnection.set_notify_handler _ _ _) as [[a|e1] [b' w']];
      simpl in *; lia.
  - destruct (BleakConnection.write_char _ _ _) as [[a|e1] [b' w']]; simpl in *; lia.
  - destruct (BleakDriver._abort d); simpl in *; lia.
  - simpl in *; lia.
  - destruct (negb _); simpl in *; lia.
  - destruct (req_queue w); simpl in *; lia.
  - destruct (BleakConnection.write _ _ _ _) as [[a|e1] [b' w']]; simpl in *; lia.
  - simpl in *; lia.
  - simpl in *; lia.
Qed.

Lemma step_keepalive_inv (a : BleakDriver.action) (s : BleakDriver.System) (tid : nat)
    (pc : BleakDriver.conn_pc) (k q : nat) :
  connection_pc s tid = Some pc ->
  keepalive_inv k q pc ->
  exists pc',
    connection_pc (step a s) tid = Some pc' /\
    keepalive_inv (k + (if sends_keepalive tid s a then 1 else 0))
                  (q + (if takes_write tid s a then 1 else 0)) pc'.
Proof.
  intros Hpc Hinv.
  assert (Ha : a = BleakDriver.Run tid \/ forall t, a = BleakDriver.Run t -> t <> tid).
  { destruct a as [handler| |handle data| |t|t handle data];
      try (right; discriminate).
    destruct (Nat.eq_dec t tid) as [->|Hne]; [now left|].
    right. intros t' [= <-]. exact Hne. }
  destruct Ha as [-> | Hother].
  - destruct (connection_pc_run_self s tid pc Hpc) as [_ Hstep].
    eexists. split; [exact Hstep|].
    pose proof (bleak_thread_keepalive_inv (BleakDriver.self s) pc (BleakDriver.world s)
                  k q Hinv) as H.
    unfold sends_keepalive, takes_write. rewrite Hpc, Nat.eqb_refl.
    destruct pc; simpl in *; exact H.
  - exists pc. split; [now apply connection_pc_other|].
    assert (Hk : sends_keepalive tid s a = false).
    { unfold sends_keepalive. destruct a; try reflexivity.
      rewrite Hpc. destruct pc; try reflexivity.
      apply Nat.eqb_neq. now apply Hother. }
    assert (Hq : takes_write tid s a = false).
    { unfold takes_write. destruct a; try reflexivity.
      rewrite Hpc. destruct pc; try reflexivity.
      replace (Nat.eqb tid0 tid) with false; [reflexivity|].
      symmetry. apply Nat.eqb_neq. now apply Hother. }
    rewrite Hk, Hq, !Nat.add_0_r. exact Hinv.
Qed.

Lemma run_keepalive_inv (tid : nat) (tr : list BleakDriver.action) :
  forall (s : BleakDriver.System) (pc : BleakDriver.conn_pc) (k q : nat),
    connection_pc s tid = Some pc ->
    keepalive_inv k q pc ->
    exists pc',
      connection_pc (run tr s) tid = Some pc' /\
      keepalive_inv (k + count_steps step (sends_keepalive tid) tr s)
                    (q + count_steps step (takes_write tid) tr s) pc'.
Proof.
  induction tr as [|a tr IH]; intros s pc k q Hpc Hinv.
  - exists pc. simpl. rewrite !Nat.add_0_r. auto.
  - destruct (step_keepalive_inv a s tid pc k q Hpc Hinv) as (pc1 & Hpc1 & Hinv1).
    destruct (IH (step a s) pc1 _ _ Hpc1 Hinv1) as (pc' & Hpc' & Hinv').
    exists pc'. split; [exact Hpc'|].
    cbn [count_steps]. rewrite !Nat.add_assoc. exact Hinv'.
Qed.

(** C10: every connection thread sends the keepalive, once, between its
    subscription and its loop.  When [connect] has returned the thread
    holds a client; when its subscription has then succeeded the thread
    stands before the keepalive; the step it takes there is one call of the
    transport, a write of [05 00 01 01 05] on
    [MOVE_HUB_HW_UUID_CHAR], which takes nothing out of [req_queue], and it
    brings the thread to the head of its loop (or ends it, when the
    transport raises).  The only other writes the thread ever gives to the
    transport are those it has taken out of [req_queue].  Along any run of
    a thread that was just started, whatever else happens: it takes that
    step at most once; as long as it stands before its loop it has sent no
    keepalive and taken no write out of [req_queue]; once it is in its loop
    it has sent exactly one; and it has taken a write out of [req_queue]
    only after the keepalive. *)
Theorem C10_keepalive_first :
  forall (s : BleakDriver.System) (tid : nat) (pc : BleakDriver.conn_pc),
    connection_pc s tid = Some pc ->
    let s' := step (BleakDriver.Run tid) s in
    (exists new,
        calls (BleakDriver.world s') = calls (BleakDriver.world s) ++ new /\
        filter is_write_call new = unit_writes MOVE_HUB_HW_UUID_CHAR pc) /\
    (forall bleak cl,
        pc = BleakDriver.CKeepalive bleak ->
        BleakConnection._client bleak = Some cl ->
        calls (BleakDriver.world s') =
          calls (BleakDriver.world s) ++
          [WriteGattChar MOVE_HUB_HW_UUID_CHAR [x05; x00; x01; x01; x05]] /\
        req_queue (BleakDriver.world s') = req_queue (BleakDriver.world s) /\
        connection_pc s' tid =
          Some (if hd false (write_faults (BleakDriver.world s))
                then BleakDriver.CRaised (BleakError "write_gatt_char")
                else BleakDriver.CWhile bleak)) /\
    (forall bleak cl,
        pc = BleakDriver.CSetNotify bleak ->
        BleakConnection._client bleak = Some cl ->
        start_notify_fails env = false ->
        connection_pc s' tid = Some (BleakDriver.CKeepalive bleak) /\
        calls (BleakDriver.world s') =
          calls (BleakDriver.world s) ++ [StartNotify MOVE_HUB_HW_UUID_CHAR]) /\
    (forall bleak,
        pc = BleakDriver.CConnect ->
        connection_pc s' tid = Some (BleakDriver.CSetNotify bleak) ->
        exists cl, BleakConnection._client bleak = Some cl) /\
    (pc = BleakDriver.CConnect ->
     forall tr : list BleakDriver.action,
       let k := count_steps step (sends_keepalive tid) tr s in
       let q := count_steps step (takes_write tid) tr s in
       (k <= 1)%nat /\
       ((0 < q)%nat -> k = 1%nat) /\
       (forall pc',
           connection_pc (run tr s) tid = Some pc' ->
           (before_loop pc' = true -> k = 0%nat /\ q = 0%nat) /\
           (forall bleak, loop_connection pc' = Some bleak -> k = 1%nat))).
Proof.
  intros s tid pc Hpc s'.
  destruct (connection_pc_run_self s tid pc Hpc) as [Hth Hpc'].
  pose proof (connection_thread_step s tid pc Hth) as Hs'. fold s' in Hs', Hpc'.
  split; [|split; [|split; [|split]]].
  - rewrite Hs'. simpl. apply bleak_thread_writes.
  - intros bleak cl -> Hcl. rewrite Hpc'. rewrite Hs'. simpl.
    unfold BleakConnection.write_char, BleakConnection.client_attr,
      write_gatt_char, bind, inW, getSelf, raise, ret.
    simpl. rewrite Hcl. simpl.
    destruct (hd false (write_faults (BleakDriver.world s))); simpl; repeat split.
  - intros bleak cl -> Hcl Hok. rewrite Hpc'. rewrite Hs'. simpl.
    unfold BleakConnection.set_notify_handler, BleakConnection.client_attr,
      client_start_notify, record_call, bind, inW, getSelf, raise, ret.
    simpl. rewrite Hcl. simpl. rewrite Hok. simpl. split; reflexivity.
  - intros bleak -> Hset. rewrite Hpc' in Hset. injection Hset as Hset.
    unfold BleakDriver._bleak_thread in Hset.
    destruct (BleakConnection.__init__ env) as [b0|e0]; [|discriminate].
    pose proof (connect_outcome _is_device_matched env
                  (BleakDriver.hub_mac (BleakDriver.self s))
                  (BleakDriver.hub_name (BleakDriver.self s))
                  b0 (BleakDriver.world s)) as Hout.
    cbv zeta in Hout. destruct Hout as (_ & _ & Hc).
    destruct (BleakConnection.connect _ _ _ _ _) as [[a|e1] [b w']]; simpl in *;
      [|discriminate].
    injection Hset as <-.
    destruct Hc as [[[e He] _] | (addr & _ & _ & Hcl)]; [discriminate|].
    eexists. exact Hcl.
  - intros -> tr k q.
    destruct (run_keepalive_inv tid tr s BleakDriver.CConnect 0 0 Hpc
                (conj eq_refl eq_refl)) as (pc1 & Hpc1 & Hinv).
    simpl in Hinv. fold k q in Hinv.
    assert (Hall : (k <= 1)%nat /\ ((0 < q)%nat -> k = 1%nat))
      by (destruct pc1; simpl in Hinv; lia).
    split; [apply Hall|]. split; [apply Hall|].
    intros pc' Hrun. rewrite Hpc1 in Hrun. injection Hrun as <-.
    split.
    + intros Hb. destruct pc1; try discriminate; simpl in Hinv; lia.
    + intros bleak Hl. destruct pc1; try discriminate; simpl in Hinv; lia.
Qed.

End MoreDriverProperties.

(** * Further properties of the thread of [BleakConnection2] *)

Section NotifyProperties.
Variable handler : Z -> list byte -> result unit.
Variable env : Env.

Local Abbreviation react := (BleakConnection2.react handler env).
Local Abbreviation play := (BleakConnection2.play handler env).

(** What is delivered, held and queued, in this order. *)
Local Abbreviation passage b :=
  (BleakConnection2.delivered b
   ++ BleakConnection2.held (BleakConnection2.thread b)
   ++ BleakConnection2._notify_queue (BleakConnection2.conn b)).

(** [disconnect] leaves the notification queue alone, whatever its result. *)
Lemma disconnect2_queue (c : BleakConnection2.t) (w : World) :
  BleakConnection2._notify_queue (fst (snd (BleakConnection2.disconnect env (c, w)))) =
  BleakConnection2._notify_queue c /\
  BleakConnection2._abort (fst (snd (BleakConnection2.disconnect env (c, w)))) = true.
Proof.
  unfold BleakConnection2.disconnect, BleakConnection2.is_alive,
    BleakConnection2.client_attr, client_disconnect, record_call,
    bind, inW, setSelf, getSelf, log_write, raise, ret.
  simpl. destruct (BleakConnection2._client c) as [cl|]; simpl;
    [|split; reflexivity].
  destruct (is_connected cl); simpl; [|split; reflexivity].
  destruct (BleakConnection2._client c); simpl;
    destruct (disconnect_fails env); simpl; split; reflexivity.
Qed.



(** A thread that waits in [get] on an empty queue stays as it is. *)
Lemma waiting_turns (c : BleakConnection2.t) (w : World) (hs : list (Z * list byte)) (n : nat) :
  BleakConnection2._notify_queue c = [] ->
  play (repeat BleakConnection2.Turn n)
    (BleakConnection2.mkBridge c w BleakConnection2.NGet hs) =
  BleakConnection2.mkBridge c w BleakConnection2.NGet hs.
Proof.
  intros Hq. induction n as [|n IH]; [reflexivity|].
  simpl repeat.
  change (play (BleakConnection2.Turn :: repeat BleakConnection2.Turn n) ?b)
    with (play (repeat BleakConnection2.Turn n) (react BleakConnection2.Turn b)).
  simpl react. rewrite Hq. simpl. rewrite app_nil_r. exact IH.
Qed.

(** X12: [disconnect] does not end a thread of [BleakConnection2] that
    waits in its blocking [get].  With [_notify_queue] empty the thread is
    still waiting, and alive, after [disconnect] and any number of its own
    steps, and the handler has received nothing more; when a notification
    arrives later and the handler returns on it, the handler still
    receives it, and only then does the thread see the flag and leave.  A
    thread that stands at the head of its loop leaves at its next step. *)
Theorem X12_waiting_thread_outlives_disconnect :
  forall (b : BleakConnection2.Bridge),
    BleakConnection2._notify_queue (BleakConnection2.conn b) = [] ->
    let closed := react BleakConnection2.Close b in
    (BleakConnection2.thread b = BleakConnection2.NGet ->
     (forall n,
         let later := play (repeat BleakConnection2.Turn n) closed in
         BleakConnection2.thread later = BleakConnection2.NGet /\
         BleakConnection2.notify_alive (BleakConnection2.thread later) = true /\
         BleakConnection2.delivered later = BleakConnection2.delivered b) /\
     (forall handle data,
         handler handle data = Ok tt ->
         let later := play [BleakConnection2.Arrive handle data; BleakConnection2.Turn;
                            BleakConnection2.Turn; BleakConnection2.Turn] closed in
         BleakConnection2.delivered later =
           BleakConnection2.delivered b ++ [(handle, data)] /\
         BleakConnection2.thread later = BleakConnection2.NReturned)) /\
    (BleakConnection2.thread b = BleakConnection2.NWhile ->
     BleakConnection2.thread (react BleakConnection2.Turn closed) =
       BleakConnection2.NReturned).
Proof.
  intros [c w pc hs] Hq closed. simpl in Hq.
  destruct (disconnect2_queue c w) as [Hq' Habort]. rewrite Hq in Hq'.
  assert (Hclosed : closed =
            BleakConnection2.mkBridge
              (fst (snd (BleakConnection2.disconnect env (c, w))))
              (snd (snd (BleakConnection2.disconnect env (c, w)))) pc hs)
    by reflexivity.
  clearbody closed.
  destruct (BleakConnection2.disconnect env (c, w)) as [res [c' w']].
  cbn [fst snd] in *. subst closed.
  split.
  - simpl. intros ->. split.
    + intros n. cbv zeta. rewrite (waiting_turns c' w' hs n Hq'). auto.
    + intros handle data Hret. cbv zeta.
      destruct c' as [ab cl' q]. simpl in Hq', Habort. subst ab q.
      simpl. rewrite Hret. simpl. rewrite ?app_nil_r. auto.
  - simpl. intros ->. simpl. now rewrite Habort.
Qed.
End NotifyProperties.

(** * The single scan of [BleakConnection] *)

Section SingleScanProperties.
Variable _is_device_matched :
  string -> option string -> option string -> option string -> bool.
Variable env : Env.
Variables hub_mac hub_name : option string.

Local Abbreviation hit dev := (_is_device_matched (address dev) (name dev) hub_mac hub_name).
Local Abbreviation miss := (no_match _is_device_matched hub_mac hub_name).
Local Abbreviation connect :=
  (BleakConnection.connect _is_device_matched env hub_mac hub_name).

(** [BleakConnection.connect] when the transport refuses the connection
    to the device it chose. *)
Lemma connect_refused (self : BleakConnection.t) (w : World)
    (before after : list Device) (dev : Device) :
  hd [] (scans w) = before ++ dev :: after ->
  miss before -> hit dev = true ->
  connect_fails env (address dev) = true ->
  fst (connect (self, w)) = Raise (BleakError "connect") /\
  BleakConnection._client (fst (snd (connect (self, w)))) =
    Some (BleakClient_new (address dev)).
Proof.
  intros Hscan Hb Hd Hcf.
  unfold BleakConnection.connect.
  unfold bind, inW, log_write, discover. cbn -[BleakConnection.for_dev].
  rewrite Hscan.
  rewrite (for_dev_hit _is_device_matched hub_mac hub_name before after dev Hb Hd).
  unfold bind, inW, setSelf, getSelf, BleakConnection.client_attr, client_connect,
    record_call, log_write, raise, ret; simpl.
  rewrite Hcf. simpl. auto.
Qed.

(** X13: whatever the radio sees, [BleakConnection.connect] makes exactly
    one scan, of ten seconds, and never subscribes.  Either no device of
    that scan is accepted by the matcher: then it raises ['Device not
    found.'], asks the transport nothing more and leaves the object as it
    was.  Or it stores a device of that scan that the matcher accepts and
    asks the transport once to connect to it; it then returns exactly when
    the transport does not refuse, with a client that is connected and
    carries the device's descriptors, and raises the transport's error
    otherwise, the client left unconnected. *)
Theorem X13_single_scan_outcomes :
  forall (w : World) (self : BleakConnection.t),
    let r := connect (self, w) in
    (miss (hd [] (scans w)) /\
     fst r = Raise (ConnectionError "Device not found.") /\
     fst (snd r) = self /\
     calls (snd (snd r)) = calls w ++ [Discover 10]) \/
    (exists dev,
        In dev (hd [] (scans w)) /\ hit dev = true /\
        BleakConnection._device (fst (snd r)) = Some dev /\
        calls (snd (snd r)) = calls w ++ [Discover 10; ClientConnect (address dev)] /\
        (connect_fails env (address dev) = false ->
         fst r = Ok tt /\
         BleakConnection._client (fst (snd r)) =
           Some (mkClient (address dev) true (gatt_table env))) /\
        (connect_fails env (address dev) = true ->
         fst r = Raise (BleakError "connect") /\
         BleakConnection._client (fst (snd r)) = Some (BleakClient_new (address dev)))).
Proof.
  intros w self r.
  destruct (scan_split _is_device_matched hub_mac hub_name (hd [] (scans w)))
    as [Hmiss | (before & dev & after & Hscan & Hb & Hd)].
  - left. split; [exact Hmiss|].
    exact (connect_single_scan_miss _is_device_matched env hub_mac hub_name self w Hmiss).
  - right. exists dev.
    destruct (connect_single_scan_hit _is_device_matched env hub_mac hub_name self w
                before after dev Hscan Hb Hd) as (H1 & H2 & _ & H4).
    split; [rewrite Hscan; apply in_or_app; right; left; reflexivity|].
    split; [exact Hd|]. split; [exact H1|]. split; [exact H2|]. split.
    + intros Hcf. destruct (H4 Hcf) as (Hok & Hcl & _). auto.
    + intros Hcf. exact (connect_refused self w before after dev Hscan Hb Hd Hcf).
Qed.
End SingleScanProperties.

(** * The further properties on the scenarios *)

Lemma X2_connect2_disconnect_round_trip_witness :
  let r := BleakConnection2.connect LEGO_CHAR matches quiet_env hub_target None
             (BleakConnection2.blank, two_scans) in
  let d1 := BleakConnection2.disconnect quiet_env (snd r) in
  fst (BleakConnection2.is_alive (snd r)) = Ok true /\
  fst d1 = Ok tt /\
  fst (BleakConnection2.is_alive (snd d1)) = Ok false.
Proof.
  destruct (X2_connect2_disconnect_round_trip LEGO_CHAR matches quiet_env hub_target None
              two_scans BleakConnection2.blank eq_refl eq_refl)
    as (H1 & H2 & _ & H4 & _).
  split; [exact H1|]. split; [exact H2 | exact H4].
Defined.

Lemma X3_connect2_refused_witness :
  let r := BleakConnection2.connect LEGO_CHAR matches deaf_env hub_target None
             (BleakConnection2.blank, two_scans) in
  fst (BleakConnection2.is_alive (snd r)) = Ok false /\
  fst (BleakConnection2.disconnect deaf_env (snd r)) = Ok tt.
Proof.
  destruct (X3_connect2_refused LEGO_CHAR matches deaf_env hub_target None
              two_scans BleakConnection2.blank eq_refl)
    as (_ & H2 & H3 & _).
  split; [exact H2 | exact H3].
Defined.

Lemma X4_methods_before_connect_witness :
  attribute_error_only (BleakDriver.fresh_world [] [])
    (BleakConnection2.write LEGO_CHAR 14 (PySeq [x01])
       (BleakConnection2.blank, BleakDriver.fresh_world [] [])) /\
  attribute_error_only (BleakDriver.fresh_world [] [])
    (BleakConnection.write LEGO_CHAR 14 (PySeq [x01])
       (BleakConnection.blank, BleakDriver.fresh_world [] [])).
Proof.
  destruct (X4_methods_before_connect LEGO_CHAR quiet_env (BleakDriver.fresh_world [] [])
              BleakConnection.blank BleakConnection2.blank
              14 (PySeq [x01]) LEGO_CHAR [x01] eq_refl eq_refl)
    as (_ & _ & _ & H4 & H5 & _).
  split; [exact H4 | exact H5].
Defined.

Lemma X5_write_accepts_iff_alive_witness :
  let s := plain_run units_started (BleakDriver.fresh hub_target None hub_in_sight []) in
  BleakDriver.is_alive s = true /\
  fst (BleakDriver.write 14 (PySeq [x01]) s) = Ok tt.
Proof.
  split; [reflexivity|].
  apply (proj2 (proj1 (X5_write_accepts_iff_alive
                         (plain_run units_started
                            (BleakDriver.fresh hub_target None hub_in_sight []))
                         14 (PySeq [x01])))).
  reflexivity.
Defined.

Lemma X6_transport_owned_by_connection_thread_witness :
  let s := lego_run start_up (BleakDriver.fresh hub_target None hub_in_sight []) in
  calls (BleakDriver.world (lego_step (BleakDriver.Run 1) s)) = calls (BleakDriver.world s) /\
  resp_queue (BleakDriver.world (lego_step (BleakDriver.Run 0) s)) =
    resp_queue (BleakDriver.world s).
Proof.
  split.
  - apply (proj1 (X6_transport_owned_by_connection_thread LEGO_CHAR matches quiet_env
                    (lego_run start_up (BleakDriver.fresh hub_target None hub_in_sight []))
                    (BleakDriver.Run 1))).
    reflexivity.
  - apply (proj2 (X6_transport_owned_by_connection_thread LEGO_CHAR matches quiet_env
                    (lego_run start_up (BleakDriver.fresh hub_target None hub_in_sight []))
                    (BleakDriver.Run 0))).
    reflexivity.
Defined.

Lemma X7_exception_ends_the_unit_witness :
  let s := plain_run [BleakDriver.EnableNotifications]
             (BleakDriver.fresh hub_target None late_hub []) in
  let s' := plain_step (BleakDriver.Run 0) s in
  nth_error (BleakDriver.threads s') 0 =
    Some (BleakDriver.ConnectionThread (BleakDriver.CRaised no_extra_argument)) /\
  calls (BleakDriver.world s') = [] /\
  BleakDriver.is_alive s' = false.
Proof.
  destruct (X7_exception_ends_the_unit LEGO_CHAR matches plain_env
              (plain_run [BleakDriver.EnableNotifications]
                 (BleakDriver.fresh hub_target None late_hub []))
              0%nat BleakDriver.CConnect eq_refl) as [Hends Hfirst].
  destruct (Hfirst eq_refl) as [Hraise _].
  destruct (Hraise no_extra_argument eq_refl) as [Hnth Hcalls].
  split; [exact Hnth|]. split; [exact Hcalls|].
  apply (Hends no_extra_argument Hnth). reflexivity.
Defined.

Lemma X8_handler_failure_ends_the_unit_witness :
  let s := lego_run notification_for_bad_handler
             (BleakDriver.fresh hub_target None hub_in_sight []) in
  let s' := lego_step (BleakDriver.Run 1) s in
  BleakDriver.handled s' = [(14%Z, [x01])] /\
  BleakDriver.is_alive s' = false.
Proof.
  destruct (X8_handler_failure_ends_the_unit LEGO_CHAR matches quiet_env
              (lego_run notification_for_bad_handler
                 (BleakDriver.fresh hub_target None hub_in_sight []))
              1%nat (14%Z, [x01])) as (_ & _ & Hh & _ & Hdead).
  - reflexivity.
  - intros handler H. vm_compute in H. injection H as <-.
    exists HandlerError. reflexivity.
  - split; [exact Hh | apply Hdead; reflexivity].
Defined.

Lemma X9_shutdown_within_five_steps_witness :
  BleakDriver.is_alive
    (lego_run (start_up ++ BleakDriver.Disconnect :: busy_shutdown)
       (BleakDriver.fresh hub_target None hub_in_sight [])) = false.
Proof.
  apply (X9_shutdown_within_five_steps LEGO_CHAR matches quiet_env hub_target None
           hub_in_sight [] start_up busy_shutdown).
  - vm_compute. lia.
  - reflexivity.
  - vm_compute. lia.
  - vm_compute. lia.
Defined.

Lemma X10_queued_writes_are_sent_witness :
  let s := lego_run two_writes (BleakDriver.fresh hub_target None hub_in_sight []) in
  exists n,
    let s' := lego_run (repeat (BleakDriver.Run 0) n) s in
    calls (BleakDriver.world s') =
      calls (BleakDriver.world s) ++
      [WriteGattChar LEGO_CHAR [x01]; WriteGattChar LEGO_CHAR [x02]] /\
    req_queue (BleakDriver.world s') = [].
Proof.
  destruct (X10_queued_writes_are_sent LEGO_CHAR matches quiet_env
              (lego_run two_writes (BleakDriver.fresh hub_target None hub_in_sight []))
              (BleakDriver.CWrite hub_conn (14%Z, PySeq [x01]))
              (BleakDriver.ProcessingThread BleakDriver.PWhile)
              hub_conn hub_client) as (n & Hc & Hq & _).
  - reflexivity.
  - reflexivity.
  - reflexivity.
  - reflexivity.
  - constructor.
  - exists n. split; [exact Hc | exact Hq].
Defined.

Lemma X12_waiting_thread_outlives_disconnect_witness :
  let closed := BleakConnection2.react ok_handler quiet_env BleakConnection2.Close
                  idle_bridge in
  BleakConnection2.notify_alive
    (BleakConnection2.thread
       (BleakConnection2.play ok_handler quiet_env
          (repeat BleakConnection2.Turn 7) closed)) = true.
Proof.
  destruct (X12_waiting_thread_outlives_disconnect ok_handler quiet_env idle_bridge eq_refl)
    as [Hwait _].
  destruct (Hwait eq_refl) as [Hstay _].
  exact (proj1 (proj2 (Hstay 7%nat))).
Defined.

Lemma X13_single_scan_outcomes_witness :
  let r := BleakConnection.connect matches quiet_env hub_target None
             (BleakConnection.blank,
              BleakDriver.fresh_world [[other_device; hub_device]] []) in
  exists dev,
    BleakConnection._device (fst (snd r)) = Some dev /\
    calls (snd (snd r)) = [Discover 10; ClientConnect (address dev)] /\
    fst r = Ok tt.
Proof.
  destruct (X13_single_scan_outcomes matches quiet_env hub_target None
              (BleakDriver.fresh_world [[other_device; hub_device]] [])
              BleakConnection.blank)
    as [(_ & Hraise & _) | (dev & _ & _ & Hdev & Hcalls & Hok & _)].
  - discriminate Hraise.
  - exists dev. split; [exact Hdev|]. split; [exact Hcalls|].
    exact (proj1 (Hok eq_refl)).
Defined.

(** * Writes and the keepalive on the scenarios *)



Lemma C10_keepalive_first_witness :
  let s0 := lego_run units_started (BleakDriver.fresh hub_target None hub_in_sight []) in
  let s2 := lego_run [BleakDriver.Run 0; BleakDriver.Run 0] s0 in
  let s3 := lego_step (BleakDriver.Run 0) s2 in
  calls (BleakDriver.world s3) =
    calls (BleakDriver.world s2) ++ [WriteGattChar LEGO_CHAR [x05; x00; x01; x01; x05]] /\
  req_queue (BleakDriver.world s3) = req_queue (BleakDriver.world s2) /\
  connection_pc s3 0 = Some (BleakDriver.CWhile hub_conn) /\
  count_steps lego_step (sends_keepalive 0) then_two_writes s0 = 1%nat.
Proof.
  destruct (C10_keepalive_first LEGO_CHAR matches quiet_env
              (lego_run [BleakDriver.Run 0; BleakDriver.Run 0]
                 (lego_run units_started
                    (BleakDriver.fresh hub_target None hub_in_sight [])))
              0%nat (BleakDriver.CKeepalive hub_conn) eq_refl)
    as (_ & Hsend & _).
  destruct (Hsend hub_conn hub_client eq_refl eq_refl) as (Hcalls & Hqueue & Hpc).
  destruct (C10_keepalive_first LEGO_CHAR matches quiet_env
              (lego_run units_started
                 (BleakDriver.fresh hub_target None hub_in_sight []))
              0%nat BleakDriver.CConnect eq_refl)
    as (_ & _ & _ & _ & Honce).
  destruct (Honce eq_refl then_two_writes) as (_ & _ & Hat).
  destruct (Hat (BleakDriver.CWhile hub_conn) eq_refl) as [_ Hloop].
  split; [exact Hcalls|]. split; [exact Hqueue|]. split; [exact Hpc|].
  exact (Hloop hub_conn eq_refl).
Defined.

Lemma X14_queued_notifications_are_handed_over_witness :
  let s := lego_run two_notifications
             (BleakDriver.fresh hub_target None hub_in_sight []) in
  exists n,
    let s' := lego_run (repeat (BleakDriver.Run 1) n) s in
    BleakDriver.handled s' = [(14%Z, [x01]); (14%Z, [x02])] /\
    resp_queue (BleakDriver.world s') = [].
Proof.
  destruct (X14_queued_notifications_are_handed_over LEGO_CHAR matches quiet_env
              (lego_run two_notifications
                 (BleakDriver.fresh hub_target None hub_in_sight []))
              (BleakDriver.ConnectionThread (BleakDriver.CSleep hub_conn))
              BleakDriver.PSleep ok_handler) as (n & Hh & Hq).
  - reflexivity.
  - reflexivity.
  - reflexivity.
  - reflexivity.
  - reflexivity.
  - exists n. split; [exact Hh | exact Hq].
Defined.
